(** * A moving-average ribbon strategy: the model and its properties

    Shallow embedding of [ma-ribbon.py], a daily long/short equity script
    written against the Quantopian host API.

    Numbers.  The script computes on numpy [float64] values.  The model
    replaces them by exact rationals ([Q], compared with [==]): rounding is
    not modelled.  Operations on which numpy yields [nan] (a mean over no
    values, a quotient by zero) have no rational value; they end the
    computation with an [error].

    Host.  [data.history], [data.can_trade], [pipeline_output], the
    portfolio and [order_target_percent] belong to the host.  They are
    modelled by the data they return ([BarData], [Market], the positions held
    in [Context]) and, for orders, by a log of the requests made. *)

From Stdlib Require Import QArith Qround Qabs Qminmax Lqa Lia.
From Stdlib Require Import List Sorted Permutation String.
From stdpp Require Import gmap.
Import ListNotations.

#[local] Open Scope Q_scope.

(** ** Python and numpy primitives *)

Inductive error : Type :=
| DivisionByZero      (* a quotient by zero, a mean of no values *)
| KeyError            (* dict lookup of a missing key *)
| IndexError          (* numpy: percentile of an empty array *)
| ValueError.         (* numpy: percentile outside [0, 100] *)

Inductive result (A : Type) : Type :=
| Ok (a : A)
| Raise (e : error).

Arguments Ok {A} a.
Arguments Raise {A} e.

Definition bind {A B : Type} (m : result A) (k : A -> result B) : result B :=
  match m with
  | Ok a => k a
  | Raise e => Raise e
  end.

Notation "'let*' x ':=' m 'in' k" := (bind m (fun x => k))
  (at level 10, x name, m at level 100, k at level 200).

(** [for x in xs: acc = body(acc, x)], stopping at the first error. *)
Fixpoint for_each {A S : Type} (xs : list A) (body : S -> A -> result S)
    (acc : S) : result S :=
  match xs with
  | [] => Ok acc
  | x :: xs' => let* acc' := body acc x in for_each xs' body acc'
  end.

(** [range(start, stop, step)] for a positive [step]. *)
Definition range (start stop step : nat) : list nat :=
  List.map (fun k => (start + k * step)%nat)
           (seq 0 ((stop - start + (step - 1)) / step)).

(** The builtin [len], as a number. *)
Definition len {A : Type} (l : list A) : Q := inject_Z (Z.of_nat (length l)).

(** The builtin [sum]: a left fold that starts from 0. *)
Definition sum (l : list Q) : Q := fold_left Qplus l 0.

(** [a / b] on numbers; no value when [b] is zero. *)
Definition div (a b : Q) : result Q :=
  if Qeq_bool b 0 then Raise DivisionByZero else Ok (a / b).

(** [d[k]] on a dict. *)
Definition getitem (d : gmap nat Q) (k : nat) : result Q :=
  match d !! k with
  | Some v => Ok v
  | None => Raise KeyError
  end.

(** [Series.mean()] and [np.average(a)] without weights: the sum over the
    count. *)
Definition mean (l : list Q) : result Q := div (sum l) (len l).

Definition average (l : list Q) : result Q := div (sum l) (len l).

(** Ascending sort, by insertion. *)
Fixpoint insert_sorted (x : Q) (l : list Q) : list Q :=
  match l with
  | [] => [x]
  | y :: l' => if Qle_bool x y then x :: l else y :: insert_sorted x l'
  end.

Definition sort (l : list Q) : list Q := fold_right insert_sorted [] l.

(** One percentile of an ascending, non-empty array [a] (numpy's default
    linear interpolation): the virtual index is [q / 100 * (n - 1)], its
    neighbours are the floor and the next index, clipped to the last one. *)
Definition percentile_sorted (a : list Q) (q : Q) : Q :=
  let n := length a in
  let virtual_index := q / 100 * inject_Z (Z.of_nat (n - 1)) in
  let previous := Z.to_nat (Qfloor virtual_index) in
  let next := Nat.min (previous + 1) (n - 1) in
  let gamma := virtual_index - inject_Z (Z.of_nat previous) in
  let lo := nth previous a 0 in
  let hi := nth next a 0 in
  lo + (hi - lo) * gamma.

(** [np.percentile(a, qs)]. *)
Definition percentile (a : list Q) (qs : list Q) : result (list Q) :=
  if forallb (fun q => Qle_bool 0 q && Qle_bool q 100) qs then
    match a with
    | [] => Raise IndexError
    | _ => Ok (List.map (percentile_sorted (sort a)) qs)
    end
  else Raise ValueError.

(** The minimum and the maximum of a list, used to state what the 0th and
    100th percentiles are. *)
Definition minimum (x : Q) (l : list Q) : Q := fold_left Qmin l x.
Definition maximum (x : Q) (l : list Q) : Q := fold_left Qmax l x.

(** ** The pipeline: factors, filters and the screen *)

Definition Security := nat.

(** One security's market data for the day: what the two custom factors and
    the [latest] columns read.  [close_previous] and [close_latest] are the
    two rows of [USEquityPricing.close] over a window of length 2. *)
Record Snapshot : Type := {
  shares_outstanding : Q;
  close_previous : Q;
  close_latest : Q;
  volume_latest : Q;
  in_Q1500US : bool
}.

Inductive Factor : Type :=
| Close_latest        (* USEquityPricing.close.latest *)
| Volume_latest       (* USEquityPricing.volume.latest *)
| MarketCap           (* class MarketCap *)
| WeeklyReturn.       (* class WeeklyReturn *)

(** Filters are the host's expression objects: a comparison of a factor with
    a constant, the base universe, and the [&] and [|] of two filters. *)
Inductive Filter : Type :=
| Q1500US
| Ge (f : Factor) (c : Q)
| Le (f : Factor) (c : Q)
| Gt (f : Factor) (c : Q)
| Lt (f : Factor) (c : Q)
| And (a b : Filter)
| Or (a b : Filter).

(** [MarketCap.compute]: [shares * close_price]. *)
Definition MarketCap_compute (shares close_price : Q) : Q :=
  shares * close_price.

(** [WeeklyReturn.compute]: [(close[-1] / close[0] - 1) * 100].  With a zero
    [close[0]] numpy gives [inf] or [nan]; the model has no value there. *)
Definition WeeklyReturn_compute (close_first close_last : Q) : result Q :=
  let* ratio := div close_last close_first in Ok ((ratio - 1) * 100).

Definition eval_factor (s : Snapshot) (f : Factor) : result Q :=
  match f with
  | Close_latest => Ok (close_latest s)
  | Volume_latest => Ok (volume_latest s)
  | MarketCap => Ok (MarketCap_compute (shares_outstanding s) (close_latest s))
  | WeeklyReturn => WeeklyReturn_compute (close_previous s) (close_latest s)
  end.

(** A comparison on a factor that has no value is false. *)
Definition compare (s : Snapshot) (f : Factor) (test : Q -> bool) : bool :=
  match eval_factor s f with
  | Ok v => test v
  | Raise _ => false
  end.

Definition Qlt_bool (a b : Q) : bool := negb (Qle_bool b a).

Fixpoint eval_filter (s : Snapshot) (p : Filter) : bool :=
  match p with
  | Q1500US => in_Q1500US s
  | Ge f c => compare s f (fun v => Qle_bool c v)
  | Le f c => compare s f (fun v => Qle_bool v c)
  | Gt f c => compare s f (fun v => Qlt_bool c v)
  | Lt f c => compare s f (fun v => Qlt_bool v c)
  | And a b => eval_filter s a && eval_filter s b
  | Or a b => eval_filter s a || eval_filter s b
  end.

(** Truth value of a filter object.  The host's filter class has no
    truth-value method of its own, so Python's default applies: every
    instance is true. *)
Definition truth (p : Filter) : bool := true.

(** Python's [a and b] on objects: [a] when [a] is false, else [b]. *)
Definition py_and (a b : Filter) : Filter := if truth a then b else a.

Record Pipeline : Type := {
  screen : Filter;
  column_close : Factor;
  column_volume : Factor;
  column_longs : Filter;
  column_shorts : Filter
}.

Definition above_micro : Filter := Ge MarketCap 50000000.
Definition price_range : Filter :=
  py_and (Ge Close_latest 1) (Le Close_latest 15).
Definition highly_liquid : Filter := Ge Volume_latest 1000000.
Definition long_position : Filter := Gt WeeklyReturn 0.
Definition short_position : Filter := Lt WeeklyReturn 0.
Definition is_tradable : Filter :=
  And (And (And above_micro price_range) highly_liquid)
      (Or long_position short_position).

Definition make_pipeline : Pipeline :=
  let base_universe := Q1500US in
  let yesterday_close := Close_latest in
  let yesterday_volume := Volume_latest in
  {| screen := And base_universe is_tradable;
     column_close := yesterday_close;
     column_volume := yesterday_volume;
     column_longs := long_position;
     column_shorts := short_position |}.

(** The day's market, as the pipeline engine sees it. *)
Definition Market : Type := list (Security * Snapshot).

(** One row of the pipeline's output frame. *)
Record Row : Type := {
  row_security : Security;
  row_close : result Q;
  row_volume : result Q;
  row_longs : bool;
  row_shorts : bool
}.

(** [pipeline_output]: the rows of the securities that pass the screen, with
    the pipeline's columns. *)
Definition pipeline_output (pipe : Pipeline) (market : Market) : list Row :=
  List.map
    (fun '(sec, s) =>
       {| row_security := sec;
          row_close := eval_factor s (column_close pipe);
          row_volume := eval_factor s (column_volume pipe);
          row_longs := eval_filter s (column_longs pipe);
          row_shorts := eval_filter s (column_shorts pipe) |})
    (List.filter (fun '(_, s) => eval_filter s (screen pipe)) market).

(** ** The strategy's state and the host's bar data *)

(** [data]: the benchmark's daily prices up to the current day, oldest first,
    and the tradability predicate. *)
Record BarData : Type := {
  prices : list Q;
  can_trade : Security -> bool
}.

(** [data.history(benchmark, fields='price', bar_count=n, frequency='1d')]:
    the trailing [n] daily prices, oldest first. *)
Definition history (data : BarData) (bar_count : nat) : list Q :=
  skipn (length (prices data) - bar_count) (prices data).

(** [context]: the fields the callbacks write and read.  [positions] holds
    the keys of [context.portfolio.positions], the securities held. *)
Record Context : Type := {
  benchmark : string;
  allocations : Q;
  long_allocations : Q;
  short_allocations : Q;
  output : list Row;
  security_list : list Security;
  longs : list Security;
  shorts : list Security;
  positions : list Security
}.

(** [x in xs] on securities. *)
Definition contains (xs : list Security) (x : Security) : bool :=
  existsb (Nat.eqb x) xs.

(** ** [before_trading_start] *)

(** First loop: the mean of the trailing [i] prices for [i] in
    [range(2, 25, 2)], stored under key [i]. *)
Definition mean_groups (data : BarData) : result (gmap nat Q) :=
  for_each (range 2 25 2)
    (fun mean_group i =>
       let benchmark_history := history data i in
       let* current_mean := mean benchmark_history in
       Ok (<[i := current_mean]> mean_group))
    ∅.

(** Second loop: for [i] in [range(2, 25, 2)] with [i < 23], append
    [mean_group[i] - mean_group[i + 2]]. *)
Definition sum_distances (mean_group : gmap nat Q) : result (list Q) :=
  for_each (range 2 25 2)
    (fun sum_distance i =>
       if (i <? 23)%nat then
         let* a := getitem mean_group i in
         let* b := getitem mean_group (i + 2) in
         Ok (sum_distance ++ [a - b])
       else Ok sum_distance)
    [].

(** [abs_diff = sum(abs(np.percentile(sum_distance, [0, 100])))]. *)
Definition abs_diff_of (sum_distance : list Q) : result Q :=
  let* high_low := percentile sum_distance [0; 100] in
  Ok (sum (List.map Qabs high_low)).

(** Third loop: each distance over [abs_diff]. *)
Definition normalize (sum_distance : list Q) (abs_diff : Q)
  : result (list Q) :=
  for_each sum_distance
    (fun allocs d => let* allocate := div d abs_diff in Ok (allocs ++ [allocate]))
    [].

(** What the allocator computes, before it is stored in the context. *)
Record Allocation : Type := {
  a_sum_distance : list Q;
  a_abs_diff : Q;
  a_allocations : Q;
  a_long_allocations : Q;
  a_short_allocations : Q
}.

Definition allocate (data : BarData) : result Allocation :=
  let* mean_group := mean_groups data in
  let* sum_distance := sum_distances mean_group in
  let* abs_diff := abs_diff_of sum_distance in
  let* allocs := normalize sum_distance abs_diff in
  let* avg := average allocs in
  let long_allocations := (1 # 2) + avg in
  let short_allocations := 1 - long_allocations in
  Ok {| a_sum_distance := sum_distance;
        a_abs_diff := abs_diff;
        a_allocations := avg;
        a_long_allocations := long_allocations;
        a_short_allocations := short_allocations |}.

Definition before_trading_start (context : Context) (data : BarData)
    (market : Market) : result Context :=
  let* a := allocate data in
  let out := pipeline_output make_pipeline market in
  Ok {| benchmark := "SPY";
        allocations := a_allocations a;
        long_allocations := a_long_allocations a;
        short_allocations := a_short_allocations a;
        output := out;
        security_list := List.map row_security out;
        longs := List.map row_security (List.filter row_longs out);
        shorts := List.map row_security (List.filter row_shorts out);
        positions := positions context |}.

(** ** [my_rebalance] and [daily_clean] *)

(** The requests made to the host, oldest first: a security and the target
    fraction of the portfolio. *)
Definition Order : Type := (Security * Q)%type.

Definition order_target_percent (security : Security) (target : Q)
    (log : list Order) : list Order :=
  log ++ [(security, target)].

(** [for security in xs: if can_trade: if not held: order(security, w)]. *)
Definition open_positions (context : Context) (data : BarData)
    (xs : list Security) (weight : Q) (log : list Order) : list Order :=
  fold_left
    (fun log security =>
       if can_trade data security then
         if negb (contains (positions context) security) then
           order_target_percent security weight log
         else log
       else log)
    xs log.

Definition daily_clean (context : Context) (data : BarData)
    (log : list Order) : list Order :=
  fold_left
    (fun log stock =>
       if negb (contains (security_list context) stock)
          && can_trade data stock then
         order_target_percent stock 0 log
       else log)
    (positions context) log.

(** Inside the guard both lengths are positive, so the two quotients are
    defined. *)
Definition my_rebalance (context : Context) (data : BarData)
    (log : list Order) : list Order :=
  let log :=
    if (0 <? length (longs context))%nat && (0 <? length (shorts context))%nat
    then
      let long_weight := long_allocations context / len (longs context) in
      let short_weight := short_allocations context / len (shorts context) in
      let log := open_positions context data (longs context) long_weight log in
      open_positions context data (shorts context) (- short_weight) log
    else log in
  daily_clean context data log.

(** ** [my_record_vars] *)

Definition my_record_vars (context : Context) : list (string * Q) :=
  [ ("allocations"%string, allocations context);
    ("long_allocations"%string, long_allocations context);
    ("short_allocations"%string, short_allocations context);
    ("number_of_longs"%string, len (longs context));
    ("number_of_shorts"%string, len (shorts context)) ].

(** The value recorded under a name. *)
Fixpoint recorded (name : string) (rs : list (string * Q)) : option Q :=
  match rs with
  | [] => None
  | (n, v) :: rs' => if String.eqb n name then Some v else recorded name rs'
  end.

(** ** Sample inputs *)

Definition rising : list Q := List.map (fun k => inject_Z (Z.of_nat k)) (seq 1 24).
Definition always_tradable : Security -> bool := fun _ => true.
Definition rising_data : BarData :=
  {| prices := rising; can_trade := always_tradable |}.


(** A day with two long candidates and one short candidate; security 2 is
    already held, security 9 is held and has left the universe. *)
Definition busy_context : Context :=
  {| benchmark := "SPY"; allocations := 1 # 10;
     long_allocations := 3 # 5; short_allocations := 2 # 5;
     output := [];
     security_list := [1; 2; 3]%nat;
     longs := [1; 2]%nat; shorts := [3]%nat;
     positions := [2; 9]%nat |}.

(** The same day without any short candidate. *)
Definition quiet_context : Context :=
  {| benchmark := "SPY"; allocations := 1 # 10;
     long_allocations := 3 # 5; short_allocations := 2 # 5;
     output := [];
     security_list := [1; 2]%nat;
     longs := [1; 2]%nat; shorts := [];
     positions := [2; 9]%nat |}.


(** A liquid stock of the base universe that closed at 0.50, up from 0.40. *)
Definition penny : Snapshot :=
  {| shares_outstanding := 200000000;
     close_previous := 2 # 5;
     close_latest := 1 # 2;
     volume_latest := 2000000;
     in_Q1500US := true |}.

(** A liquid stock that fell from 12 to 10, and one that stayed at 8. *)
Definition slide : Snapshot :=
  {| shares_outstanding := 30000000;
     close_previous := 12;
     close_latest := 10;
     volume_latest := 1500000;
     in_Q1500US := true |}.

Definition still : Snapshot :=
  {| shares_outstanding := 30000000;
     close_previous := 8;
     close_latest := 8;
     volume_latest := 1500000;
     in_Q1500US := true |}.

Definition sample_market : Market :=
  [(7%nat, penny); (8%nat, slide); (5%nat, still)].

(** ** Notions used to state the properties *)

(** What the screen asks of a security whose previous close is positive. *)
Definition qualifies (s : Snapshot) : Prop :=
  in_Q1500US s = true
  /\ 50000000 <= shares_outstanding s * close_latest s
  /\ close_latest s <= 15
  /\ 1000000 <= volume_latest s
  /\ ~ close_latest s == close_previous s.


(** The mean of a non-empty list, as a number. *)
Definition avg_of (l : list Q) : Q := sum l / len l.

(** The windows that get differenced, and the distances of a price series
    written as one expression. *)
Definition differenced : list nat :=
  List.filter (fun i => (i <? 23)%nat) (range 2 25 2).

Definition distances (data : BarData) : list Q :=
  List.map
    (fun i => avg_of (history data i) - avg_of (history data (i + 2)))
    differenced.

(** [m] is a least (greatest) element of [l], up to [==]. *)
Definition is_minimum (m : Q) (l : list Q) : Prop :=
  (exists y, In y l /\ y == m) /\ (forall y, In y l -> m <= y).

Definition is_maximum (m : Q) (l : list Q) : Prop :=
  (exists y, In y l /\ y == m) /\ (forall y, In y l -> y <= m).

(** The prices of [data'] are those of [data] after the change of unit
    [p |-> k * p + c]. *)
Definition rescaled (k c : Q) (data' data : BarData) : Prop :=
  Forall2 (fun p' p => p' == k * p + c) (prices data') (prices data).

(** The benchmark seen upside down. *)
Definition mirrored (data : BarData) : BarData :=
  {| prices := List.map Qopp (prices data); can_trade := can_trade data |}.

(** The prices 24, 23, ..., 1. *)
Definition falling_data : BarData :=
  {| prices := rev rising; can_trade := always_tradable |}.


(** The prices 1, 2, ..., 24 with the two oldest raised to 12 and 13. *)
Definition late_start_data : BarData :=
  {| prices := 12 :: 13 :: skipn 2 rising; can_trade := always_tradable |}.

(** The orders one rebalance submits. *)
Definition rebalance_orders (context : Context) (data : BarData) : list Order :=
  my_rebalance context data [].

(** Who the two opening loops and the cleanup loop order for. *)
Definition can_open (context : Context) (data : BarData) (s : Security) : bool :=
  can_trade data s && negb (contains (positions context) s).

Definition must_close (context : Context) (data : BarData) (s : Security) : bool :=
  negb (contains (security_list context) s) && can_trade data s.

Definition at_weight (w : Q) (xs : list Security) : list Order :=
  List.map (fun s => (s, w)) xs.

(** * Properties *)

(** ** The rebalancer *)

Section Rebalance.

Variables (context : Context) (data : BarData).

Lemma contains_In (xs : list Security) (x : Security) :
  contains xs x = true <-> In x xs.
Proof.
  unfold contains. rewrite existsb_exists. split.
  - intros [y [Hy Heq]]. apply Nat.eqb_eq in Heq. now subst.
  - intros H. exists x. split; [assumption | apply Nat.eqb_refl].
Qed.

Lemma contains_not_In (xs : list Security) (x : Security) :
  contains xs x = false <-> ~ In x xs.
Proof.
  rewrite <- contains_In. destruct (contains xs x); split; congruence.
Qed.

Lemma open_positions_log (xs : list Security) (w : Q) (log : list Order) :
  open_positions context data xs w log
  = log ++ at_weight w (List.filter (can_open context data) xs).
Proof.
  unfold open_positions, at_weight.
  revert log. induction xs as [|x xs IH]; intros log; simpl.
  - now rewrite app_nil_r.
  - rewrite IH. unfold can_open at 2, order_target_percent.
    destruct (can_trade data x); simpl; [|reflexivity].
    destruct (contains (positions context) x); simpl; [reflexivity|].
    now rewrite <- app_assoc.
Qed.

Lemma daily_clean_log (log : list Order) :
  daily_clean context data log
  = log ++ at_weight 0 (List.filter (must_close context data) (positions context)).
Proof.
  unfold daily_clean, at_weight.
  generalize (positions context) as ps. intros ps.
  revert log. induction ps as [|x ps IH]; intros log; simpl.
  - now rewrite app_nil_r.
  - rewrite IH. unfold must_close at 2, order_target_percent.
    destruct (negb (contains (security_list context) x) && can_trade data x);
      simpl; [|reflexivity].
    now rewrite <- app_assoc.
Qed.

(** The whole log of one rebalance: openings (when both lists are
    non-empty), then closings. *)
Lemma my_rebalance_log (log : list Order) :
  my_rebalance context data log
  = log
    ++ (if (0 <? length (longs context))%nat && (0 <? length (shorts context))%nat
        then
          at_weight (long_allocations context / len (longs context))
                    (List.filter (can_open context data) (longs context))
          ++ at_weight (- (short_allocations context / len (shorts context)))
                       (List.filter (can_open context data) (shorts context))
        else [])
    ++ at_weight 0 (List.filter (must_close context data) (positions context)).
Proof.
  unfold my_rebalance.
  destruct ((0 <? length (longs context))%nat && (0 <? length (shorts context))%nat).
  - rewrite daily_clean_log, !open_positions_log.
    now rewrite <- !app_assoc.
  - rewrite daily_clean_log. reflexivity.
Qed.

Lemma In_at_weight (w : Q) (xs : list Security) (s : Security) (v : Q) :
  In (s, v) (at_weight w xs) <-> In s xs /\ v = w.
Proof.
  unfold at_weight. rewrite in_map_iff. split.
  - intros [x [Heq Hin]]. inversion Heq; subst. now split.
  - intros [Hin ->]. now exists s.
Qed.

Lemma can_open_iff (s : Security) :
  can_open context data s = true
  <-> can_trade data s = true /\ ~ In s (positions context).
Proof.
  unfold can_open. rewrite andb_true_iff, negb_true_iff, contains_not_In.
  tauto.
Qed.

Lemma must_close_iff (s : Security) :
  must_close context data s = true
  <-> ~ In s (security_list context) /\ can_trade data s = true.
Proof.
  unfold must_close. rewrite andb_true_iff, negb_true_iff, contains_not_In.
  tauto.
Qed.

Lemma nonempty_guard {A : Type} (l : list A) :
  (0 <? length l)%nat = true <-> l <> [].
Proof.
  destruct l as [|a l]; cbn.
  - split; [discriminate | congruence].
  - split; [discriminate | reflexivity].
Qed.

(** In the guarded branch the counts are not zero: the two weights are
    quotients by a non-zero number. *)
Lemma len_nonzero {A : Type} (l : list A) : l <> [] -> ~ len l == 0.
Proof.
  intros Hne Heq. destruct l as [|a l]; [congruence|].
  unfold len, Qeq in Heq. simpl in Heq. lia.
Qed.

End Rebalance.

(** C7.  When the long list and the short list are both non-empty, every
    tradable long candidate that is not held gets a target-percent order of
    [long_allocations / len(longs)], and every tradable short candidate that
    is not held gets one of [-(short_allocations / len(shorts))].  When one
    of the lists is empty the rebalance submits the cleanup's orders and no
    other. *)
Theorem rebalance_opens_at_equal_weights (context : Context) (data : BarData) :
  (longs context <> [] -> shorts context <> [] ->
   (forall s, In s (longs context) -> can_trade data s = true ->
              ~ In s (positions context) ->
              In (s, long_allocations context / len (longs context))
                 (rebalance_orders context data))
   /\ (forall s, In s (shorts context) -> can_trade data s = true ->
                 ~ In s (positions context) ->
                 In (s, - (short_allocations context / len (shorts context)))
                    (rebalance_orders context data)))
  /\ (longs context = [] \/ shorts context = [] ->
      rebalance_orders context data = daily_clean context data []).
Proof.
  unfold rebalance_orders. rewrite my_rebalance_log, daily_clean_log. simpl.
  split.
  - intros Hl Hs.
    apply nonempty_guard in Hl. apply nonempty_guard in Hs.
    rewrite Hl, Hs. simpl.
    split; intros s Hin Htrade Hheld.
    + rewrite !in_app_iff. left. left.
      apply In_at_weight. split; [|reflexivity].
      apply filter_In. split; [assumption|]. now apply can_open_iff.
    + rewrite !in_app_iff. left. right.
      apply In_at_weight. split; [|reflexivity].
      apply filter_In. split; [assumption|]. now apply can_open_iff.
  - intros [H | H]; rewrite H; simpl; [reflexivity|].
    now rewrite andb_false_r.
Qed.

Lemma rebalance_opens_at_equal_weights_witness :
  (In 1%nat (longs busy_context) /\ In 3%nat (shorts busy_context)
   /\ In (1%nat, (3 # 5) / len [1; 2]%nat) (rebalance_orders busy_context rising_data)
   /\ In (3%nat, - ((2 # 5) / len [3]%nat)) (rebalance_orders busy_context rising_data))
  /\ (shorts quiet_context = []
      /\ rebalance_orders quiet_context rising_data
         = daily_clean quiet_context rising_data []).
Proof.
  split.
  - assert (Hl : longs busy_context <> []) by discriminate.
    assert (Hs : shorts busy_context <> []) by discriminate.
    destruct (proj1 (rebalance_opens_at_equal_weights busy_context rising_data) Hl Hs)
      as [Hlong Hshort].
    split; [simpl; tauto|]. split; [simpl; tauto|]. split.
    + apply (Hlong 1%nat); [simpl; tauto | reflexivity | simpl; lia].
    + apply (Hshort 3%nat); [simpl; tauto | reflexivity | simpl; lia].
  - split; [reflexivity|].
    apply (proj2 (rebalance_opens_at_equal_weights quiet_context rising_data)).
    right. reflexivity.
Defined.

(** C8.  Every rebalance runs the cleanup: a held security that is absent
    from [security_list] and is tradable gets a target-percent order of 0,
    whatever the long and short lists contain. *)
Theorem rebalance_flattens_dropped (context : Context) (data : BarData)
    (s : Security) :
  In s (positions context) ->
  ~ In s (security_list context) ->
  can_trade data s = true ->
  In (s, 0) (rebalance_orders context data).
Proof.
  intros Hheld Hout Htrade.
  unfold rebalance_orders. rewrite my_rebalance_log. simpl.
  apply in_or_app. right.
  apply In_at_weight. split; [|reflexivity].
  apply filter_In. split; [assumption|]. now apply must_close_iff.
Qed.

Lemma rebalance_flattens_dropped_witness :
  In 9%nat (positions quiet_context)
  /\ ~ In 9%nat (security_list quiet_context)
  /\ In (9%nat, 0) (rebalance_orders quiet_context rising_data).
Proof.
  split; [simpl; tauto|]. split; [simpl; lia|].
  apply (rebalance_flattens_dropped quiet_context rising_data 9%nat);
    [simpl; tauto | simpl; lia | reflexivity].
Defined.

(** C9.  A held security that is in [security_list] gets no order at all on a
    rebalance: the opening loops skip it because it is held, the cleanup
    skips it because it is listed. *)
Theorem rebalance_leaves_held_listed (context : Context) (data : BarData)
    (s : Security) (target : Q) :
  In s (positions context) ->
  In s (security_list context) ->
  ~ In (s, target) (rebalance_orders context data).
Proof.
  intros Hheld Hlisted.
  unfold rebalance_orders. rewrite my_rebalance_log. simpl.
  rewrite in_app_iff. intros [Hopen | Hclose].
  - destruct ((0 <? length (longs context))%nat && (0 <? length (shorts context))%nat);
      [|contradiction].
    apply in_app_or in Hopen.
    destruct Hopen as [H | H]; apply In_at_weight in H; destruct H as [H _];
      apply filter_In in H; destruct H as [_ H];
      apply can_open_iff in H; tauto.
  - apply In_at_weight in Hclose. destruct Hclose as [H _].
    apply filter_In in H. destruct H as [_ H].
    apply must_close_iff in H. tauto.
Qed.

Lemma rebalance_leaves_held_listed_witness :
  In 2%nat (positions busy_context)
  /\ In 2%nat (security_list busy_context)
  /\ ~ In (2%nat, 3 # 10) (rebalance_orders busy_context rising_data).
Proof.
  split; [simpl; tauto|]. split; [simpl; tauto|].
  apply (rebalance_leaves_held_listed busy_context rising_data 2%nat (3 # 10));
    simpl; tauto.
Defined.

(** ** The universe filter *)

(** C2.  [price_range] is the upper-bound comparison alone: Python's [and]
    returns its second operand because the first, a filter object, is true.
    So [is_tradable] tests market cap, [close <= 15], volume and the sign of
    the return, and nothing about [close >= 1]: a stock that closed below 1
    passes the screen. *)
Theorem price_range_is_upper_bound_only :
  price_range = Le Close_latest 15
  /\ (forall s, eval_filter s price_range = Qle_bool (close_latest s) 15)
  /\ (forall s,
        eval_filter s is_tradable
        = eval_filter s above_micro
          && Qle_bool (close_latest s) 15
          && eval_filter s highly_liquid
          && (eval_filter s long_position || eval_filter s short_position))
  /\ (close_latest penny < 1
      /\ eval_filter penny is_tradable = true
      /\ List.map row_security (pipeline_output make_pipeline [(7%nat, penny)])
         = [7%nat]).
Proof.
  split; [reflexivity|].
  split; [intros s; reflexivity|].
  split; [intros s; reflexivity|].
  split; [reflexivity|].
  split; vm_compute; reflexivity.
Qed.

(** ** Arithmetic of the primitives *)

Lemma bind_Ok_inv {A B : Type} (m : result A) (k : A -> result B) (b : B) :
  bind m k = Ok b -> exists a, m = Ok a /\ k a = Ok b.
Proof.
  destruct m as [a|e]; simpl; [|discriminate].
  intros H. now exists a.
Qed.

Lemma div_Ok (a b : Q) : ~ b == 0 -> div a b = Ok (a / b).
Proof.
  intros Hb. unfold div.
  destruct (Qeq_bool b 0) eqn:E; [|reflexivity].
  apply Qeq_bool_iff in E. contradiction.
Qed.

Lemma div_Raise (a b : Q) : b == 0 -> div a b = Raise DivisionByZero.
Proof.
  intros Hb. unfold div. apply Qeq_bool_iff in Hb. now rewrite Hb.
Qed.

Lemma div_Ok_inv (a b q : Q) : div a b = Ok q -> ~ b == 0 /\ q = a / b.
Proof.
  unfold div. destruct (Qeq_bool b 0) eqn:E; [discriminate|].
  intros H. inversion H. split; [|reflexivity].
  intros Hb. apply Qeq_bool_iff in Hb. congruence.
Qed.

Lemma fold_left_Qplus (l : list Q) (a : Q) :
  fold_left Qplus l a == a + sum l.
Proof.
  unfold sum. revert a. induction l as [|x l IH]; intros a; simpl.
  - ring.
  - rewrite (IH (a + x)), (IH (0 + x)). ring.
Qed.

Lemma sum_cons (x : Q) (l : list Q) : sum (x :: l) == x + sum l.
Proof.
  unfold sum at 1. simpl. rewrite fold_left_Qplus. ring.
Qed.

Lemma len_cons {A : Type} (x : A) (l : list A) : len (x :: l) == len l + 1.
Proof.
  unfold len. simpl length. rewrite Nat2Z.inj_succ, <- Z.add_1_r.
  rewrite inject_Z_plus. reflexivity.
Qed.

Lemma len_nonneg {A : Type} (l : list A) : 0 <= len l.
Proof.
  unfold len. change 0 with (inject_Z 0). rewrite <- Zle_Qle. lia.
Qed.

Lemma len_pos {A : Type} (l : list A) : l <> [] -> 0 < len l.
Proof.
  intros Hne. destruct l as [|x l]; [congruence|].
  rewrite len_cons. pose proof (len_nonneg l). lra.
Qed.

Lemma mean_Ok (l : list Q) : l <> [] -> mean l = Ok (avg_of l).
Proof.
  intros Hne. unfold mean, avg_of. apply div_Ok.
  pose proof (len_pos l Hne). lra.
Qed.

Lemma average_Ok (l : list Q) : l <> [] -> average l = Ok (avg_of l).
Proof. exact (mean_Ok l). Qed.



(** A non-empty list of numbers above [y] sums to more than the count times
    [y]. *)
Lemma sum_above (y : Q) (l : list Q) :
  l <> [] -> Forall (Qlt y) l -> len l * y < sum l.
Proof.
  intros Hne Hall. induction Hall as [|x l Hx Hall IH]; [congruence|].
  rewrite sum_cons, len_cons.
  destruct l as [|x' l'].
  - change (sum []) with 0. change (len (@nil Q)) with 0. lra.
  - assert (H : len (x' :: l') * y < sum (x' :: l')) by (apply IH; discriminate).
    lra.
Qed.

(** Dropping the two oldest prices of a strictly increasing window raises
    its mean. *)
Lemma avg_of_drop_two (x y : Q) (t : list Q) :
  t <> [] -> x < y -> Forall (Qlt y) t ->
  0 < avg_of t - avg_of (x :: y :: t).
Proof.
  intros Hne Hxy Hall.
  pose proof (len_pos t Hne) as Hk.
  pose proof (sum_above y t Hne Hall) as Hsum.
  unfold avg_of. rewrite !sum_cons, !len_cons.
  assert (Hy : y < sum t / len t).
  { apply Qlt_shift_div_l; [assumption | lra]. }
  assert (Hlt : (x + (y + sum t)) / (len t + 1 + 1) < sum t / len t).
  { apply Qlt_shift_div_r; [lra|].
    assert (E : sum t / len t * (len t + 1 + 1) == sum t + 2 * (sum t / len t))
      by (field; lra).
    rewrite E. lra. }
  lra.
Qed.

(** ** The trailing windows *)

Section Windows.

Variable data : BarData.

Lemma history_length (i : nat) :
  (i <= length (prices data))%nat -> length (history data i) = i.
Proof.
  intros Hi. unfold history. rewrite List.length_skipn. lia.
Qed.

Lemma history_nonempty (i : nat) :
  prices data <> [] -> (0 < i)%nat -> history data i <> [].
Proof.
  intros Hne Hi Hnil. apply (f_equal (@length Q)) in Hnil.
  unfold history in Hnil. rewrite List.length_skipn in Hnil. simpl in Hnil.
  destruct (prices data); [congruence | simpl in *; lia].
Qed.

(** A shorter window is the tail of a longer one. *)
Lemma history_suffix (i j : nat) :
  (i <= j <= length (prices data))%nat ->
  history data i = skipn (j - i) (history data j).
Proof.
  intros Hij. unfold history. rewrite List.skipn_skipn. f_equal. lia.
Qed.

Lemma skipn_two {A : Type} (m : nat) (l : list A) :
  (m + 2 <= length l)%nat ->
  exists x y, skipn m l = x :: y :: skipn (m + 2) l.
Proof.
  revert l. induction m as [|m IH]; intros l Hl.
  - destruct l as [|x [|y l]]; simpl in Hl; try lia.
    now exists x, y.
  - destruct l as [|z l]; simpl in Hl; [lia|].
    simpl. apply IH. lia.
Qed.

(** The window of [i + 2] days is the window of [i] days with two older
    prices in front. *)
Lemma history_step (i : nat) :
  (i + 2 <= length (prices data))%nat ->
  exists x y, history data (i + 2) = x :: y :: history data i.
Proof.
  intros Hi. unfold history.
  destruct (skipn_two (length (prices data) - (i + 2)) (prices data))
    as [x [y E]]; [lia|].
  exists x, y. rewrite E. do 3 f_equal. lia.
Qed.



Lemma StronglySorted_skipn {A : Type} (R : A -> A -> Prop) (m : nat)
    (l : list A) :
  StronglySorted R l -> StronglySorted R (skipn m l).
Proof.
  revert l. induction m as [|m IH]; intros l Hl; [assumption|].
  destruct l as [|x l]; [assumption|]. simpl. apply IH.
  now inversion Hl.
Qed.

End Windows.

(** ** The three loops of the allocator *)

Lemma range_2_25_2 :
  range 2 25 2 = [2; 4; 6; 8; 10; 12; 14; 16; 18; 20; 22; 24]%nat.
Proof. reflexivity. Qed.

Lemma differenced_windows :
  differenced = [2; 4; 6; 8; 10; 12; 14; 16; 18; 20; 22]%nat.
Proof. reflexivity. Qed.

Lemma lookup_fold_insert (g : nat -> Q) (ks : list nat) (mg0 : gmap nat Q)
    (i : nat) :
  In i ks \/ mg0 !! i = Some (g i) ->
  fold_left (fun mg k => <[k := g k]> mg) ks mg0 !! i = Some (g i).
Proof.
  revert mg0. induction ks as [|k ks IH]; intros mg0 H; simpl.
  - destruct H as [[] | H]; exact H.
  - apply IH. destruct (Nat.eq_dec k i) as [-> | Hne].
    + right. apply lookup_insert_eq.
    + destruct H as [[Hk | Hin] | H].
      * congruence.
      * now left.
      * right. now rewrite lookup_insert_ne.
Qed.

Lemma mean_groups_loop (data : BarData) (ks : list nat) (mg0 : gmap nat Q) :
  (forall i, In i ks -> history data i <> []) ->
  for_each ks
    (fun mean_group i =>
       let benchmark_history := history data i in
       let* current_mean := mean benchmark_history in
       Ok (<[i := current_mean]> mean_group))
    mg0
  = Ok (fold_left (fun mg k => <[k := avg_of (history data k)]> mg) ks mg0).
Proof.
  revert mg0. induction ks as [|k ks IH]; intros mg0 Hne; [reflexivity|].
  simpl. rewrite mean_Ok by (apply Hne; now left). simpl.
  apply IH. intros i Hi. apply Hne. now right.
Qed.

Lemma sum_distances_loop (mg : gmap nat Q) (g : nat -> Q) (ks : list nat)
    (acc : list Q) :
  (forall i, In i ks -> (i <? 23)%nat = true ->
             mg !! i = Some (g i) /\ mg !! (i + 2)%nat = Some (g (i + 2)%nat)) ->
  for_each ks
    (fun sum_distance i =>
       if (i <? 23)%nat then
         let* a := getitem mg i in
         let* b := getitem mg (i + 2) in
         Ok (sum_distance ++ [a - b])
       else Ok sum_distance)
    acc
  = Ok (acc ++ List.map (fun i => g i - g (i + 2)%nat)
                        (List.filter (fun i => (i <? 23)%nat) ks)).
Proof.
  revert acc. induction ks as [|k ks IH]; intros acc Hmg; simpl.
  - now rewrite app_nil_r.
  - destruct (k <? 23)%nat eqn:Hk.
    + destruct (Hmg k (or_introl eq_refl) Hk) as [Ha Hb].
      unfold getitem. rewrite Ha, Hb. simpl.
      rewrite IH by (intros i Hi; apply Hmg; now right).
      now rewrite <- app_assoc.
    + simpl. apply IH. intros i Hi. apply Hmg. now right.
Qed.

Lemma normalize_loop (ds : list Q) (s : Q) (acc : list Q) :
  ~ s == 0 ->
  for_each ds
    (fun allocs d => let* allocate := div d s in Ok (allocs ++ [allocate]))
    acc
  = Ok (acc ++ List.map (fun d => d / s) ds).
Proof.
  intros Hs. revert acc. induction ds as [|d ds IH]; intros acc; simpl.
  - now rewrite app_nil_r.
  - rewrite div_Ok by assumption. simpl. rewrite IH.
    now rewrite <- app_assoc.
Qed.

Lemma normalize_Ok (ds : list Q) (s : Q) :
  ~ s == 0 -> normalize ds s = Ok (List.map (fun d => d / s) ds).
Proof. intros Hs. unfold normalize. now rewrite normalize_loop. Qed.

Lemma normalize_Raise (d : Q) (ds : list Q) (s : Q) :
  s == 0 -> normalize (d :: ds) s = Raise DivisionByZero.
Proof.
  intros Hs. unfold normalize. simpl. now rewrite div_Raise.
Qed.

(** With at least one price, the first two loops succeed and produce
    [distances]. *)
Lemma allocate_distances (data : BarData) :
  prices data <> [] ->
  exists mg,
    mean_groups data = Ok mg
    /\ (forall i, In i (range 2 25 2) -> mg !! i = Some (avg_of (history data i)))
    /\ sum_distances mg = Ok (distances data).
Proof.
  intros Hne.
  exists (fold_left (fun mg k => <[k := avg_of (history data k)]> mg)
                    (range 2 25 2) (∅ : gmap nat Q)).
  assert (Hlook : forall i, In i (range 2 25 2) ->
            fold_left (fun mg k => <[k := avg_of (history data k)]> mg)
                      (range 2 25 2) (∅ : gmap nat Q) !! i
            = Some (avg_of (history data i))).
  { intros i Hi.
    apply (lookup_fold_insert (fun k => avg_of (history data k))). now left. }
  split; [|split; [exact Hlook|]].
  - unfold mean_groups. apply mean_groups_loop.
    intros i Hi. apply history_nonempty; [assumption|].
    rewrite range_2_25_2 in Hi. simpl in Hi.
    repeat (destruct Hi as [<- | Hi]; [lia|]). contradiction.
  - unfold sum_distances, distances, differenced.
    rewrite (sum_distances_loop _ (fun k => avg_of (history data k))).
    + reflexivity.
    + intros i Hi Hlt. split; apply Hlook; [assumption|].
      rewrite range_2_25_2 in Hi |- *. simpl in Hi.
      repeat (destruct Hi as [<- | Hi]; [simpl; tauto || discriminate Hlt|]).
      contradiction.
Qed.

(** ** Sorting, percentiles, minimum and maximum *)

Lemma insert_sorted_perm (x : Q) (l : list Q) :
  Permutation (insert_sorted x l) (x :: l).
Proof.
  induction l as [|y l IH]; simpl; [reflexivity|].
  destruct (Qle_bool x y); [reflexivity|].
  rewrite IH. apply perm_swap.
Qed.

Lemma sort_perm (l : list Q) : Permutation (sort l) l.
Proof.
  induction l as [|x l IH]; simpl; [reflexivity|].
  rewrite insert_sorted_perm. now apply perm_skip.
Qed.

Lemma insert_sorted_sorted (x : Q) (l : list Q) :
  StronglySorted Qle l -> StronglySorted Qle (insert_sorted x l).
Proof.
  induction 1 as [|y l Hl IH Hy]; simpl.
  - constructor; constructor.
  - destruct (Qle_bool x y) eqn:E.
    + apply Qle_bool_iff in E. constructor.
      * now constructor.
      * constructor; [assumption|].
        eapply List.Forall_impl; [|exact Hy].
        intros z Hz. now apply Qle_trans with y.
    + assert (Hyx : y <= x).
      { apply Qlt_le_weak, Qnot_le_lt. rewrite <- Qle_bool_iff. congruence. }
      constructor; [assumption|].
      apply (Permutation_Forall (Permutation_sym (insert_sorted_perm x l))).
      now constructor.
Qed.

Lemma sort_sorted (l : list Q) : StronglySorted Qle (sort l).
Proof.
  induction l as [|x l IH]; simpl; [constructor|].
  now apply insert_sorted_sorted.
Qed.

Lemma percentile_sorted_0 (a : list Q) :
  percentile_sorted a 0 == nth 0 a 0.
Proof.
  unfold percentile_sorted. cbv zeta.
  assert (E : 0 / 100 * inject_Z (Z.of_nat (length a - 1)) == 0) by field.
  assert (F : Qfloor (0 / 100 * inject_Z (Z.of_nat (length a - 1))) = 0%Z)
    by (rewrite E; reflexivity).
  rewrite F. change (Z.to_nat 0) with 0%nat.
  set (lo := nth 0 a 0). set (hi := nth (Nat.min (0 + 1) (length a - 1)) a 0).
  rewrite E. change (inject_Z (Z.of_nat 0)) with 0. ring.
Qed.

Lemma percentile_sorted_100 (a : list Q) :
  percentile_sorted a 100 == nth (length a - 1) a 0.
Proof.
  unfold percentile_sorted. cbv zeta.
  assert (E : 100 / 100 * inject_Z (Z.of_nat (length a - 1))
              == inject_Z (Z.of_nat (length a - 1))) by field.
  assert (F : Qfloor (100 / 100 * inject_Z (Z.of_nat (length a - 1)))
              = Z.of_nat (length a - 1))
    by (rewrite E; apply Qfloor_Z).
  rewrite F, Nat2Z.id.
  replace (Nat.min (length a - 1 + 1) (length a - 1)) with (length a - 1)%nat
    by lia.
  set (lo := nth (length a - 1) a 0).
  rewrite E. ring.
Qed.

Lemma minimum_is_minimum (x : Q) (l : list Q) :
  is_minimum (minimum x l) (x :: l).
Proof.
  unfold minimum. revert x. induction l as [|y l IH]; intros x; simpl.
  - split; [exists x; split; [now left | reflexivity]|].
    intros z [<- | []]. apply Qle_refl.
  - destruct (IH (Qmin x y)) as [[z [Hz Hzm]] Hlow]. split.
    + destruct Hz as [<- | Hz].
      * destruct (Q.min_spec x y) as [[_ E] | [_ E]].
        -- exists x. split; [now left | now rewrite <- Hzm, E].
        -- exists y. split; [right; now left | now rewrite <- Hzm, E].
      * exists z. split; [right; now right | assumption].
    + assert (Hm : fold_left Qmin l (Qmin x y) <= Qmin x y)
        by (apply Hlow; now left).
      intros w [<- | [<- | Hw]].
      * apply Qle_trans with (Qmin x y); [assumption | apply Q.le_min_l].
      * apply Qle_trans with (Qmin x y); [assumption | apply Q.le_min_r].
      * apply Hlow. now right.
Qed.

Lemma maximum_is_maximum (x : Q) (l : list Q) :
  is_maximum (maximum x l) (x :: l).
Proof.
  unfold maximum. revert x. induction l as [|y l IH]; intros x; simpl.
  - split; [exists x; split; [now left | reflexivity]|].
    intros z [<- | []]. apply Qle_refl.
  - destruct (IH (Qmax x y)) as [[z [Hz Hzm]] Hup]. split.
    + destruct Hz as [<- | Hz].
      * destruct (Q.max_spec x y) as [[_ E] | [_ E]].
        -- exists y. split; [right; now left | now rewrite <- Hzm, E].
        -- exists x. split; [now left | now rewrite <- Hzm, E].
      * exists z. split; [right; now right | assumption].
    + assert (Hm : Qmax x y <= fold_left Qmax l (Qmax x y))
        by (apply Hup; now left).
      intros w [<- | [<- | Hw]].
      * apply Qle_trans with (Qmax x y); [apply Q.le_max_l | assumption].
      * apply Qle_trans with (Qmax x y); [apply Q.le_max_r | assumption].
      * apply Hup. now right.
Qed.

Lemma is_minimum_unique (m m' : Q) (l : list Q) :
  is_minimum m l -> is_minimum m' l -> m == m'.
Proof.
  intros [[y [Hy Ey]] Hlow] [[y' [Hy' Ey']] Hlow'].
  apply Qle_antisym.
  - rewrite <- Ey'. now apply Hlow.
  - rewrite <- Ey. now apply Hlow'.
Qed.

Lemma is_maximum_unique (m m' : Q) (l : list Q) :
  is_maximum m l -> is_maximum m' l -> m == m'.
Proof.
  intros [[y [Hy Ey]] Hup] [[y' [Hy' Ey']] Hup'].
  apply Qle_antisym.
  - rewrite <- Ey. now apply Hup'.
  - rewrite <- Ey'. now apply Hup.
Qed.

Lemma is_minimum_perm (m : Q) (l l' : list Q) :
  Permutation l l' -> is_minimum m l -> is_minimum m l'.
Proof.
  intros Hp [[y [Hy Ey]] Hlow]. split.
  - exists y. split; [now apply (Permutation_in _ Hp) | assumption].
  - intros z Hz. apply Hlow. now apply (Permutation_in _ (Permutation_sym Hp)).
Qed.

Lemma is_maximum_perm (m : Q) (l l' : list Q) :
  Permutation l l' -> is_maximum m l -> is_maximum m l'.
Proof.
  intros Hp [[y [Hy Ey]] Hup]. split.
  - exists y. split; [now apply (Permutation_in _ Hp) | assumption].
  - intros z Hz. apply Hup. now apply (Permutation_in _ (Permutation_sym Hp)).
Qed.

Lemma sorted_first_minimum (l : list Q) :
  l <> [] -> StronglySorted Qle l -> is_minimum (nth 0 l 0) l.
Proof.
  intros Hne Hs. destruct l as [|a t]; [congruence|]. simpl.
  inversion Hs as [|? ? _ Hall]; subst. split.
  - exists a. split; [now left | reflexivity].
  - intros z [<- | Hz]; [apply Qle_refl|].
    rewrite List.Forall_forall in Hall. now apply Hall.
Qed.

Lemma sorted_last_maximum (l : list Q) :
  l <> [] -> StronglySorted Qle l -> is_maximum (nth (length l - 1) l 0) l.
Proof.
  intros Hne Hs. induction Hs as [|a t Ht IH Hall]; [congruence|].
  destruct t as [|b t'].
  - simpl. split; [exists a; split; [now left | reflexivity]|].
    intros z [<- | []]. apply Qle_refl.
  - replace (nth (length (a :: b :: t') - 1) (a :: b :: t') 0)
      with (nth (length (b :: t') - 1) (b :: t') 0)
      by (simpl; now rewrite Nat.sub_0_r).
    destruct IH as [[y [Hy Ey]] Hup]; [discriminate|]. split.
    + exists y. split; [now right | assumption].
    + intros z [<- | Hz]; [|now apply Hup].
      rewrite <- Ey. rewrite List.Forall_forall in Hall. now apply Hall.
Qed.

(** The 0th and 100th percentiles are the minimum and the maximum. *)
Lemma percentile_min_max (d : Q) (ds : list Q) :
  exists lo hi,
    percentile (d :: ds) [0; 100] = Ok [lo; hi]
    /\ lo == minimum d ds /\ hi == maximum d ds.
Proof.
  exists (percentile_sorted (sort (d :: ds)) 0),
         (percentile_sorted (sort (d :: ds)) 100).
  assert (Hne : sort (d :: ds) <> []).
  { intros E. pose proof (sort_perm (d :: ds)) as Hp. rewrite E in Hp.
    now apply Permutation_nil in Hp. }
  split; [reflexivity|]. split.
  - rewrite percentile_sorted_0.
    apply (is_minimum_unique _ _ (d :: ds)); [|apply minimum_is_minimum].
    apply (is_minimum_perm _ _ _ (sort_perm (d :: ds))).
    apply sorted_first_minimum; [assumption | apply sort_sorted].
  - rewrite percentile_sorted_100.
    apply (is_maximum_unique _ _ (d :: ds)); [|apply maximum_is_maximum].
    apply (is_maximum_perm _ _ _ (sort_perm (d :: ds))).
    apply sorted_last_maximum; [assumption | apply sort_sorted].
Qed.

Lemma abs_diff_of_min_max (d : Q) (ds : list Q) :
  exists s,
    abs_diff_of (d :: ds) = Ok s
    /\ s == Qabs (minimum d ds) + Qabs (maximum d ds).
Proof.
  destruct (percentile_min_max d ds) as [lo [hi [Hp [Hlo Hhi]]]].
  exists (sum [Qabs lo; Qabs hi]). split.
  - unfold abs_diff_of. rewrite Hp. reflexivity.
  - rewrite !sum_cons, Hlo, Hhi. change (sum []) with 0. ring.
Qed.

(** ** The allocator *)

Lemma allocate_inv (data : BarData) (a : Allocation) :
  allocate data = Ok a ->
  exists mg allocs,
    mean_groups data = Ok mg
    /\ sum_distances mg = Ok (a_sum_distance a)
    /\ abs_diff_of (a_sum_distance a) = Ok (a_abs_diff a)
    /\ normalize (a_sum_distance a) (a_abs_diff a) = Ok allocs
    /\ average allocs = Ok (a_allocations a)
    /\ a_long_allocations a = (1 # 2) + a_allocations a
    /\ a_short_allocations a = 1 - a_long_allocations a.
Proof.
  unfold allocate. intros H.
  apply bind_Ok_inv in H. destruct H as [mg [Hmg H]].
  apply bind_Ok_inv in H. destruct H as [ds [Hds H]].
  apply bind_Ok_inv in H. destruct H as [s [Hs H]].
  apply bind_Ok_inv in H. destruct H as [allocs [Hallocs H]].
  apply bind_Ok_inv in H. destruct H as [avg [Havg H]].
  inversion H; subst a; clear H. simpl.
  exists mg, allocs. repeat split; assumption.
Qed.

Lemma mean_groups_prices (data : BarData) (mg : gmap nat Q) :
  mean_groups data = Ok mg -> prices data <> [].
Proof.
  intros H Hnil. unfold mean_groups in H. rewrite range_2_25_2 in H.
  cbn [for_each] in H. unfold history at 1 in H. rewrite Hnil in H.
  discriminate H.
Qed.

Lemma allocate_sum_distance (data : BarData) (a : Allocation) :
  allocate data = Ok a -> a_sum_distance a = distances data.
Proof.
  intros H. destruct (allocate_inv data a H) as [mg [allocs [Hmg [Hds _]]]].
  destruct (allocate_distances data (mean_groups_prices data mg Hmg))
    as [mg' [Hmg' [_ Hds']]].
  congruence.
Qed.






(** C6.  Whenever the allocator completes, the 0th and 100th percentiles of
    [sum_distance] are its minimum and its maximum, and [abs_diff] is the sum
    of their absolute values. *)
Theorem abs_diff_is_abs_min_plus_abs_max (data : BarData) (a : Allocation) :
  allocate data = Ok a ->
  exists d ds lo hi,
    a_sum_distance a = d :: ds
    /\ percentile (d :: ds) [0; 100] = Ok [lo; hi]
    /\ lo == minimum d ds
    /\ hi == maximum d ds
    /\ a_abs_diff a == Qabs (minimum d ds) + Qabs (maximum d ds).
Proof.
  intros H.
  destruct (allocate_inv data a H) as [_ [_ [_ [_ [Hs _]]]]].
  pose proof (allocate_sum_distance data a H) as Hds.
  destruct (a_sum_distance a) as [|d ds] eqn:E; [discriminate Hds|].
  destruct (percentile_min_max d ds) as [lo [hi [Hp [Hlo Hhi]]]].
  destruct (abs_diff_of_min_max d ds) as [s [Hs' Hsum]].
  exists d, ds, lo, hi.
  repeat split; try assumption.
  assert (Es : a_abs_diff a = s) by congruence.
  now rewrite Es.
Qed.

Lemma abs_diff_is_abs_min_plus_abs_max_witness :
  exists a d ds,
    allocate rising_data = Ok a
    /\ a_sum_distance a = d :: ds
    /\ a_abs_diff a == Qabs (minimum d ds) + Qabs (maximum d ds).
Proof.
  destruct (allocate rising_data) as [a|e] eqn:E.
  - destruct (abs_diff_is_abs_min_plus_abs_max rising_data a E)
      as [d [ds [lo [hi [Hds [_ [_ [_ Hs]]]]]]]].
    exists a, d, ds. split; [reflexivity|]. split; assumption.
  - vm_compute in E. discriminate E.
Defined.

(** C3, as the code has it.  The means are taken over the 12 windows 2, 4,
    ..., 24 and stored under these keys; the guard [i < 23] keeps the lookup
    of [mean_group[i + 2]] inside them, so the differences are those of the
    11 adjacent pairs 2-4, ..., 20-22 and 22-24, each a shorter window's mean
    minus the next longer window's.  Window 24 enters the last one. *)
Theorem distances_cover_all_adjacent_pairs (data : BarData) (mg : gmap nat Q) :
  mean_groups data = Ok mg ->
  range 2 25 2 = [2; 4; 6; 8; 10; 12; 14; 16; 18; 20; 22; 24]%nat
  /\ (forall i, In i (range 2 25 2) ->
                exists m, mean (history data i) = Ok m /\ mg !! i = Some m)
  /\ (exists m : nat -> Q,
        (forall i, In i (range 2 25 2) -> mean (history data i) = Ok (m i))
        /\ sum_distances mg
           = Ok (List.map (fun i => m i - m (i + 2)%nat)
                          [2; 4; 6; 8; 10; 12; 14; 16; 18; 20; 22]%nat))
  /\ (forall a, allocate data = Ok a -> length (a_sum_distance a) = 11%nat).
Proof.
  intros Hmg.
  pose proof (mean_groups_prices data mg Hmg) as Hne.
  destruct (allocate_distances data Hne) as [mg' [Hmg' [Hlook Hds]]].
  assert (mg' = mg) by congruence. subst mg'.
  assert (Hmean : forall i, In i (range 2 25 2) ->
                    mean (history data i) = Ok (avg_of (history data i))).
  { intros i Hi. apply mean_Ok, history_nonempty; [assumption|].
    rewrite range_2_25_2 in Hi. simpl in Hi.
    repeat (destruct Hi as [<- | Hi]; [lia|]). contradiction. }
  split; [reflexivity|]. split; [|split].
  - intros i Hi. exists (avg_of (history data i)). split; auto.
  - exists (fun i => avg_of (history data i)). split; [exact Hmean|].
    rewrite Hds. reflexivity.
  - intros a Ha. rewrite (allocate_sum_distance data a Ha). reflexivity.
Qed.

Lemma distances_cover_all_adjacent_pairs_witness :
  exists mg,
    mean_groups rising_data = Ok mg
    /\ forall a, allocate rising_data = Ok a ->
                 length (a_sum_distance a) = 11%nat.
Proof.
  destruct (mean_groups rising_data) as [mg|e] eqn:E.
  - exists mg. split; [reflexivity|].
    exact (proj2 (proj2 (proj2 (distances_cover_all_adjacent_pairs _ _ E)))).
  - exfalso.
    destruct (allocate_distances rising_data) as [mg [Hmg _]];
      [discriminate | congruence].
Defined.

(** C3, as stated, fails: on the prices 1, 2, ..., 24 the allocator produces
    11 differences, not 10, and the last one is the mean of window 22 minus
    the mean of window 24. *)
Lemma ten_differences_counterexample :
  exists a m22 m24,
    allocate rising_data = Ok a
    /\ length (a_sum_distance a) = 11%nat
    /\ length (a_sum_distance a) <> 10%nat
    /\ mean (history rising_data 22) = Ok m22
    /\ mean (history rising_data 24) = Ok m24
    /\ nth 10 (a_sum_distance a) 0 = m22 - m24.
Proof.
  destruct (allocate rising_data) as [a|e] eqn:E;
    [|vm_compute in E; discriminate E].
  exists a, (avg_of (history rising_data 22)), (avg_of (history rising_data 24)).
  rewrite (allocate_sum_distance _ _ E).
  split; [reflexivity|]. split; [reflexivity|]. split; [discriminate|].
  split; [apply mean_Ok; discriminate|].
  split; [apply mean_Ok; discriminate|].
  reflexivity.
Qed.

(** ** Rising and flat benchmarks *)

Lemma differenced_bounds (i : nat) :
  In i differenced -> (0 < i)%nat /\ (i + 2 <= 24)%nat.
Proof.
  rewrite differenced_windows. simpl. intros H.
  repeat (destruct H as [<- | H]; [lia|]). contradiction.
Qed.

(** On a strictly increasing trailing 24 days every distance is positive. *)
Lemma distances_positive (data : BarData) :
  (24 <= length (prices data))%nat ->
  Sorted Qlt (history data 24) ->
  Forall (fun d => 0 < d) (distances data).
Proof.
  intros Hlen Hsorted.
  assert (Hss : StronglySorted Qlt (history data 24)).
  { apply Sorted_StronglySorted; [|assumption].
    intros x y z. apply Qlt_trans. }
  unfold distances. apply List.Forall_forall. intros d Hd.
  apply in_map_iff in Hd. destruct Hd as [i [<- Hi]].
  destruct (differenced_bounds i Hi) as [Hpos Hup].
  destruct (history_step data i) as [x [y Estep]]; [lia|].
  assert (Hs : StronglySorted Qlt (x :: y :: history data i)).
  { rewrite <- Estep, (history_suffix data (i + 2) 24) by lia.
    now apply StronglySorted_skipn. }
  inversion Hs as [|? ? Hs' Hx]; subst.
  inversion Hs' as [|? ? _ Hy]; subst.
  rewrite Estep. apply avg_of_drop_two.
  - apply history_nonempty; [|assumption].
    intros Hnil. rewrite Hnil in Hlen. simpl in Hlen. lia.
  - now inversion Hx.
  - assumption.
Qed.


Lemma distances_nonempty (data : BarData) :
  exists d ds, distances data = d :: ds.
Proof.
  unfold distances. rewrite differenced_windows. simpl. eauto.
Qed.

Lemma Qabs_positive (x : Q) : 0 < x -> Qabs x == x.
Proof. intros H. apply Qabs_pos. lra. Qed.

(** Positive distances: the scale is positive, the normalised distances are
    positive, and so is their average. *)
Lemma positive_distances_allocation (d : Q) (ds : list Q) :
  Forall (fun x => 0 < x) (d :: ds) ->
  exists s avg,
    abs_diff_of (d :: ds) = Ok s
    /\ 0 < s
    /\ normalize (d :: ds) s = Ok (List.map (fun x => x / s) (d :: ds))
    /\ average (List.map (fun x => x / s) (d :: ds)) = Ok avg
    /\ 0 < avg.
Proof.
  intros Hall. rewrite List.Forall_forall in Hall.
  destruct (abs_diff_of_min_max d ds) as [s [Hs Es]].
  destruct (minimum_is_minimum d ds) as [[lo [Hlo Elo]] _].
  destruct (maximum_is_maximum d ds) as [[hi [Hhi Ehi]] _].
  assert (Hmin : 0 < minimum d ds) by (rewrite <- Elo; now apply Hall).
  assert (Hmax : 0 < maximum d ds) by (rewrite <- Ehi; now apply Hall).
  assert (Hspos : 0 < s).
  { rewrite Es, (Qabs_positive _ Hmin), (Qabs_positive _ Hmax). lra. }
  assert (Hsnz : ~ s == 0) by lra.
  set (allocs := List.map (fun x => x / s) (d :: ds)).
  assert (Hallocs : Forall (Qlt 0) allocs).
  { apply List.Forall_forall. intros q Hq.
    apply in_map_iff in Hq. destruct Hq as [x [<- Hx]].
    apply Qlt_shift_div_l; [assumption|]. specialize (Hall x Hx). lra. }
  assert (Hne : allocs <> []) by discriminate.
  exists s, (avg_of allocs).
  split; [assumption|]. split; [assumption|].
  split; [now apply normalize_Ok|].
  split; [now apply average_Ok|].
  unfold avg_of. apply Qlt_shift_div_l; [now apply len_pos|].
  pose proof (sum_above 0 allocs Hne Hallocs). lra.
Qed.

(** C4, as the code has it.  On a benchmark that rose strictly over the
    trailing 24 days the allocator completes, every difference in
    [sum_distance] is positive (a shorter window's mean is above a longer
    window's), and [long_allocations] is above one half. *)
Theorem rising_benchmark_tilts_long (data : BarData) :
  (24 <= length (prices data))%nat ->
  Sorted Qlt (history data 24) ->
  exists a,
    allocate data = Ok a
    /\ Forall (fun d => 0 < d) (a_sum_distance a)
    /\ 1 # 2 < a_long_allocations a.
Proof.
  intros Hlen Hsorted.
  pose proof (distances_positive data Hlen Hsorted) as Hpos.
  assert (Hne : prices data <> []).
  { intros Hnil. rewrite Hnil in Hlen. simpl in Hlen. lia. }
  destruct (allocate_distances data Hne) as [mg [Hmg [_ Hds]]].
  destruct (distances_nonempty data) as [d [ds Ed]].
  rewrite Ed in Hpos, Hds.
  destruct (positive_distances_allocation d ds Hpos)
    as [s [avg [Hs [_ [Hnorm [Havg Havgpos]]]]]].
  eexists. split.
  - unfold allocate. rewrite Hmg. cbn [bind]. rewrite Hds. cbn [bind].
    rewrite Hs. cbn [bind]. rewrite Hnorm. cbn [bind]. rewrite Havg.
    cbn [bind]. reflexivity.
  - simpl. split; [assumption | lra].
Qed.

Lemma rising_benchmark_tilts_long_witness :
  (24 <= length (prices rising_data))%nat
  /\ Sorted Qlt (history rising_data 24)
  /\ exists a,
       allocate rising_data = Ok a
       /\ Forall (fun d => 0 < d) (a_sum_distance a)
       /\ 1 # 2 < a_long_allocations a.
Proof.
  assert (Hlen : (24 <= length (prices rising_data))%nat) by (simpl; lia).
  assert (Hsorted : Sorted Qlt (history rising_data 24))
    by (vm_compute; repeat constructor).
  split; [exact Hlen|]. split; [exact Hsorted|].
  exact (rising_benchmark_tilts_long rising_data Hlen Hsorted).
Defined.

(** C4, as stated, fails: the prices 1, 2, ..., 24 rise strictly, yet every
    difference is 1 and [long_allocations] is 1. *)
Lemma rising_benchmark_counterexample :
  (24 <= length (prices rising_data))%nat
  /\ Sorted Qlt (history rising_data 24)
  /\ exists a,
       allocate rising_data = Ok a
       /\ Forall (fun d => d == 1) (a_sum_distance a)
       /\ ~ Forall (fun d => d < 0) (a_sum_distance a)
       /\ a_long_allocations a == 1
       /\ ~ a_long_allocations a < 1 # 2.
Proof.
  split; [simpl; lia|].
  split; [vm_compute; repeat constructor|].
  destruct (allocate rising_data) as [a|e] eqn:E;
    [|vm_compute in E; discriminate E].
  exists a. split; [reflexivity|].
  vm_compute in E. inversion E; subst a; clear E. simpl.
  split; [repeat constructor|].
  split; [intros H; inversion H as [|? ? Hd _]; subst; vm_compute in Hd; discriminate Hd|].
  split; [reflexivity|].
  intros H. vm_compute in H. discriminate H.
Qed.



(** ** More on the rebalancer *)

Lemma map_fst_at_weight (w : Q) (xs : list Security) :
  List.map fst (at_weight w xs) = xs.
Proof.
  unfold at_weight. rewrite List.map_map. simpl. apply List.map_id.
Qed.




(** Every order of a rebalance is of one of three kinds, each for a tradable
    security: an opening at the long weight for a long candidate that is not
    held, an opening at minus the short weight for a short candidate that is
    not held, or a closing at 0 for a held security that left the list.  In
    particular no order goes to a security the host reports untradeable. *)
Theorem rebalance_orders_kinds (context : Context) (data : BarData)
    (s : Security) (target : Q) :
  In (s, target) (rebalance_orders context data) ->
  can_trade data s = true
  /\ ((In s (longs context) /\ ~ In s (positions context)
       /\ shorts context <> []
       /\ target = long_allocations context / len (longs context))
      \/ (In s (shorts context) /\ ~ In s (positions context)
          /\ longs context <> []
          /\ target = - (short_allocations context / len (shorts context)))
      \/ (In s (positions context) /\ ~ In s (security_list context)
          /\ target = 0)).
Proof.
  unfold rebalance_orders. rewrite my_rebalance_log. simpl.
  rewrite in_app_iff. intros [Hopen | Hclose].
  - destruct ((0 <? length (longs context))%nat
              && (0 <? length (shorts context))%nat) eqn:G; [|contradiction].
    apply andb_true_iff in G. destruct G as [Gl Gs].
    apply nonempty_guard in Gl. apply nonempty_guard in Gs.
    apply in_app_or in Hopen.
    destruct Hopen as [H | H]; apply In_at_weight in H; destruct H as [H ->];
      apply filter_In in H; destruct H as [Hin H];
      apply can_open_iff in H; destruct H as [Htrade Hheld];
      (split; [assumption|]).
    + left. repeat split; assumption.
    + right. left. repeat split; assumption.
  - apply In_at_weight in Hclose. destruct Hclose as [H ->].
    apply filter_In in H. destruct H as [Hin H].
    apply must_close_iff in H. destruct H as [Hout Htrade].
    split; [assumption|]. right. right. repeat split; assumption.
Qed.

Lemma rebalance_orders_kinds_witness :
  In (9%nat, 0) (rebalance_orders busy_context rising_data)
  /\ can_trade rising_data 9%nat = true.
Proof.
  assert (H : In (9%nat, 0) (rebalance_orders busy_context rising_data))
    by (vm_compute; tauto).
  split; [exact H|].
  exact (proj1 (rebalance_orders_kinds busy_context rising_data 9%nat 0 H)).
Defined.

Lemma NoDup_filter {A : Type} (f : A -> bool) (l : list A) :
  List.NoDup l -> List.NoDup (List.filter f l).
Proof.
  induction 1 as [|x l Hx Hl IH]; simpl; [constructor|].
  destruct (f x); [|assumption].
  constructor; [|assumption].
  intros Hin. apply filter_In in Hin. tauto.
Qed.

Lemma NoDup_app_disjoint {A : Type} (l1 l2 : list A) :
  List.NoDup l1 -> List.NoDup l2 -> (forall x, In x l1 -> ~ In x l2) ->
  List.NoDup (l1 ++ l2).
Proof.
  induction 1 as [|x l1 Hx Hl1 IH]; intros Hl2 Hdis; simpl; [assumption|].
  constructor.
  - rewrite in_app_iff. intros [H | H]; [contradiction|].
    apply (Hdis x); [now left | assumption].
  - apply IH; [assumption|]. intros y Hy. apply Hdis. now right.
Qed.

Lemma ordered_securities_NoDup (context : Context) (data : BarData) :
  List.NoDup (longs context) ->
  List.NoDup (shorts context) ->
  List.NoDup (positions context) ->
  (forall s, In s (longs context) -> ~ In s (shorts context)) ->
  List.NoDup (List.map fst (rebalance_orders context data)).
Proof.
  intros Hl Hs Hp Hdis.
  unfold rebalance_orders. rewrite my_rebalance_log. simpl.
  rewrite List.map_app, map_fst_at_weight.
  apply NoDup_app_disjoint.
  - destruct ((0 <? length (longs context))%nat
              && (0 <? length (shorts context))%nat); [|constructor].
    rewrite List.map_app, !map_fst_at_weight.
    apply NoDup_app_disjoint; try now apply NoDup_filter.
    intros x Hx Hx'. apply filter_In in Hx. apply filter_In in Hx'.
    apply (Hdis x); tauto.
  - now apply NoDup_filter.
  - intros x Hx Hclose.
    apply filter_In in Hclose. destruct Hclose as [Hheld _].
    destruct ((0 <? length (longs context))%nat
              && (0 <? length (shorts context))%nat); [|contradiction].
    rewrite List.map_app, !map_fst_at_weight in Hx.
    apply in_app_or in Hx.
    destruct Hx as [H | H]; apply filter_In in H; destruct H as [_ H];
      apply can_open_iff in H; tauto.
Qed.

(** With no security listed twice and none both long and short, a rebalance
    submits at most one order per security. *)
Theorem rebalance_one_order_per_security (context : Context) (data : BarData) :
  List.NoDup (longs context) ->
  List.NoDup (shorts context) ->
  List.NoDup (positions context) ->
  (forall s, In s (longs context) -> ~ In s (shorts context)) ->
  List.NoDup (List.map fst (rebalance_orders context data)).
Proof. exact (ordered_securities_NoDup context data). Qed.

Lemma rebalance_one_order_per_security_witness :
  List.NoDup (longs busy_context)
  /\ List.NoDup (List.map fst (rebalance_orders busy_context rising_data)).
Proof.
  assert (Hl : List.NoDup (longs busy_context))
    by (repeat constructor; simpl; lia).
  assert (Hs : List.NoDup (shorts busy_context))
    by (repeat constructor; simpl; lia).
  assert (Hp : List.NoDup (positions busy_context))
    by (repeat constructor; simpl; lia).
  assert (Hdis : forall s, In s (longs busy_context) ->
                           ~ In s (shorts busy_context))
    by (simpl; intros s H; lia).
  split; [exact Hl|].
  exact (rebalance_one_order_per_security busy_context rising_data
           Hl Hs Hp Hdis).
Defined.




(** ** The pipeline's output *)

Lemma Qlt_bool_iff (a b : Q) : Qlt_bool a b = true <-> a < b.
Proof.
  unfold Qlt_bool. rewrite negb_true_iff. split.
  - intros H. apply Qnot_le_lt. rewrite <- Qle_bool_iff. congruence.
  - intros H. destruct (Qle_bool b a) eqn:E; [|reflexivity].
    apply Qle_bool_iff in E. lra.
Qed.

Lemma weekly_return_positive (s : Snapshot) :
  0 < close_previous s ->
  exists r,
    eval_factor s WeeklyReturn = Ok r
    /\ (0 < r <-> close_previous s < close_latest s)
    /\ (r < 0 <-> close_latest s < close_previous s).
Proof.
  intros Hprev. simpl. unfold WeeklyReturn_compute.
  rewrite div_Ok by lra. simpl.
  eexists. split; [reflexivity|].
  set (ratio := close_latest s / close_previous s).
  assert (E : close_latest s == ratio * close_previous s)
    by (unfold ratio; field; lra).
  assert (Hup : 1 < ratio <-> close_previous s < close_latest s).
  { split; intros H.
    - rewrite E. assert (0 < (ratio - 1) * close_previous s)
        by (apply Qmult_lt_0_compat; lra). lra.
    - unfold ratio. apply Qlt_shift_div_l; lra. }
  assert (Hdown : ratio < 1 <-> close_latest s < close_previous s).
  { split; intros H.
    - rewrite E. assert (0 < (1 - ratio) * close_previous s)
        by (apply Qmult_lt_0_compat; lra). lra.
    - unfold ratio. apply Qlt_shift_div_r; lra. }
  split; (split; intros H; [|assert (Hr : 1 < ratio \/ ratio < 1) by tauto]).
  - apply Hup. lra.
  - apply Hup in H. lra.
  - apply Hdown. lra.
  - apply Hdown in H. lra.
Qed.

Lemma long_position_iff (s : Snapshot) :
  0 < close_previous s ->
  eval_filter s long_position = true <-> close_previous s < close_latest s.
Proof.
  intros Hprev. destruct (weekly_return_positive s Hprev) as [r [Er [Hup _]]].
  unfold long_position. simpl eval_filter. unfold compare. rewrite Er.
  now rewrite Qlt_bool_iff.
Qed.

Lemma short_position_iff (s : Snapshot) :
  0 < close_previous s ->
  eval_filter s short_position = true <-> close_latest s < close_previous s.
Proof.
  intros Hprev. destruct (weekly_return_positive s Hprev) as [r [Er [_ Hdown]]].
  unfold short_position. simpl eval_filter. unfold compare. rewrite Er.
  now rewrite Qlt_bool_iff.
Qed.

(** No return is both above and below zero. *)
Lemma long_short_exclusive (s : Snapshot) :
  eval_filter s long_position = true -> eval_filter s short_position = false.
Proof.
  unfold long_position, short_position. cbn [eval_filter]. unfold compare.
  destruct (eval_factor s WeeklyReturn) as [r|e]; [|discriminate].
  intros H. apply Qlt_bool_iff in H.
  destruct (Qlt_bool r 0) eqn:E; [|reflexivity].
  apply Qlt_bool_iff in E. lra.
Qed.

Lemma screen_iff (s : Snapshot) :
  0 < close_previous s ->
  eval_filter s (screen make_pipeline) = true <-> qualifies s.
Proof.
  intros Hprev. unfold qualifies.
  change (eval_filter s (screen make_pipeline))
    with (in_Q1500US s
          && (Qle_bool 50000000 (shares_outstanding s * close_latest s)
              && Qle_bool (close_latest s) 15
              && Qle_bool 1000000 (volume_latest s)
              && (eval_filter s long_position || eval_filter s short_position))).
  rewrite !andb_true_iff, orb_true_iff, !Qle_bool_iff.
  rewrite (long_position_iff s Hprev), (short_position_iff s Hprev).
  split.
  - intros [HQ [[[Hcap Hprice] Hvol] Hmove]].
    repeat split; try assumption. intros Heq. lra.
  - intros [HQ [Hcap [Hprice [Hvol Hmove]]]].
    repeat split; try assumption.
    destruct (Qlt_le_dec (close_previous s) (close_latest s)) as [H | H];
      [now left|].
    right. apply Qle_lteq in H. destruct H as [H | H]; [assumption|].
    exfalso. apply Hmove. assumption.
Qed.

Lemma filter_map_swap {A B : Type} (f : A -> B) (p : B -> bool) (l : list A) :
  List.filter p (List.map f l) = List.map f (List.filter (fun x => p (f x)) l).
Proof.
  induction l as [|x l IH]; simpl; [reflexivity|].
  destruct (p (f x)); simpl; now rewrite IH.
Qed.

Lemma filter_filter_and {A : Type} (p q : A -> bool) (l : list A) :
  List.filter q (List.filter p l) = List.filter (fun x => p x && q x) l.
Proof.
  induction l as [|x l IH]; simpl; [reflexivity|].
  destruct (p x); simpl; [|assumption].
  destruct (q x); simpl; now rewrite IH.
Qed.

(** The three lists [before_trading_start] stores, read off the market. *)
Lemma before_trading_start_lists (context : Context) (data : BarData)
    (market : Market) (context' : Context) :
  before_trading_start context data market = Ok context' ->
  security_list context'
  = List.map fst
      (List.filter (fun e => eval_filter (snd e) (screen make_pipeline)) market)
  /\ longs context'
     = List.map fst
         (List.filter (fun e => eval_filter (snd e) (screen make_pipeline)
                                && eval_filter (snd e) long_position) market)
  /\ shorts context'
     = List.map fst
         (List.filter (fun e => eval_filter (snd e) (screen make_pipeline)
                                && eval_filter (snd e) short_position) market).
Proof.
  unfold before_trading_start. intros H.
  apply bind_Ok_inv in H. destruct H as [a [_ H]].
  inversion H; subst context'; clear H. simpl.
  unfold pipeline_output.
  assert (E : forall p : Snapshot -> bool,
            List.filter (fun '(_, s) => p s) market
            = List.filter (fun e => p (snd e)) market).
  { intros p. apply List.filter_ext. now intros [sec s]. }
  rewrite (E (fun s => eval_filter s (screen make_pipeline))).
  repeat split.
  - rewrite List.map_map. apply List.map_ext. now intros [sec s].
  - rewrite filter_map_swap, List.map_map, filter_filter_and.
    erewrite List.map_ext; [f_equal; apply List.filter_ext|];
      now intros [sec s].
  - rewrite filter_map_swap, List.map_map, filter_filter_and.
    erewrite List.map_ext; [f_equal; apply List.filter_ext|];
      now intros [sec s].
Qed.

Lemma In_map_fst_filter (p : Security * Snapshot -> bool) (market : Market)
    (sec : Security) :
  In sec (List.map fst (List.filter p market))
  <-> exists s, In (sec, s) market /\ p (sec, s) = true.
Proof.
  rewrite in_map_iff. split.
  - intros [[sec' s] [E H]]. simpl in E. subst sec'.
    apply filter_In in H. now exists s.
  - intros [s [Hin Hp]]. exists (sec, s). split; [reflexivity|].
    now apply filter_In.
Qed.

Lemma market_positive (market : Market) (sec : Security) (s : Snapshot) :
  Forall (fun e => 0 < close_previous (snd e)) market ->
  In (sec, s) market -> 0 < close_previous s.
Proof.
  intros Hall Hin. rewrite List.Forall_forall in Hall.
  exact (Hall (sec, s) Hin).
Qed.

(** On a market whose previous closes are positive, [security_list] holds
    exactly the securities of the base universe with a market cap of at least
    50,000,000, a close of at most 15, a volume of at least 1,000,000 and a
    close that differs from the previous one. *)
Theorem security_list_is_the_qualifying_universe (context : Context)
    (data : BarData) (market : Market) (context' : Context) :
  Forall (fun e => 0 < close_previous (snd e)) market ->
  before_trading_start context data market = Ok context' ->
  forall sec,
    In sec (security_list context')
    <-> exists s, In (sec, s) market /\ qualifies s.
Proof.
  intros Hpos Hstart sec.
  destruct (before_trading_start_lists _ _ _ _ Hstart) as [El _].
  rewrite El, In_map_fst_filter. simpl.
  split; intros [s [Hin H]]; exists s; (split; [assumption|]);
    now apply (screen_iff s (market_positive market sec s Hpos Hin)).
Qed.

Lemma security_list_is_the_qualifying_universe_witness :
  exists context',
    before_trading_start busy_context rising_data sample_market = Ok context'
    /\ (In 7%nat (security_list context')
        <-> exists s, In (7%nat, s) sample_market /\ qualifies s).
Proof.
  assert (Hpos : Forall (fun e => 0 < close_previous (snd e)) sample_market)
    by (repeat constructor).
  destruct (before_trading_start busy_context rising_data sample_market)
    as [context'|e] eqn:E.
  - exists context'. split; [reflexivity|].
    exact (security_list_is_the_qualifying_universe _ _ _ _ Hpos E 7%nat).
  - vm_compute in E. discriminate E.
Defined.

(** On such a market the long candidates are the listed securities whose
    close rose, the short candidates those whose close fell. *)
Theorem longs_rose_and_shorts_fell (context : Context) (data : BarData)
    (market : Market) (context' : Context) :
  Forall (fun e => 0 < close_previous (snd e)) market ->
  before_trading_start context data market = Ok context' ->
  forall sec,
    (In sec (longs context')
     <-> exists s, In (sec, s) market /\ qualifies s
                   /\ close_previous s < close_latest s)
    /\ (In sec (shorts context')
        <-> exists s, In (sec, s) market /\ qualifies s
                      /\ close_latest s < close_previous s).
Proof.
  intros Hpos Hstart sec.
  destruct (before_trading_start_lists _ _ _ _ Hstart) as [_ [Elong Eshort]].
  rewrite Elong, Eshort, !In_map_fst_filter. simpl.
  split; split; intros [s [Hin H]]; exists s; (split; [assumption|]);
    pose proof (market_positive market sec s Hpos Hin) as Hprev.
  - apply andb_true_iff in H. destruct H as [Hscreen Hlong].
    split; [now apply screen_iff | now apply long_position_iff].
  - destruct H as [Hq Hup]. apply andb_true_iff.
    split; [now apply screen_iff | now apply long_position_iff].
  - apply andb_true_iff in H. destruct H as [Hscreen Hshort].
    split; [now apply screen_iff | now apply short_position_iff].
  - destruct H as [Hq Hdown]. apply andb_true_iff.
    split; [now apply screen_iff | now apply short_position_iff].
Qed.

Lemma longs_rose_and_shorts_fell_witness :
  exists context',
    before_trading_start busy_context rising_data sample_market = Ok context'
    /\ longs context' = [7%nat] /\ shorts context' = [8%nat]
    /\ (In 7%nat (longs context')
        <-> exists s, In (7%nat, s) sample_market /\ qualifies s
                      /\ close_previous s < close_latest s).
Proof.
  assert (Hpos : Forall (fun e => 0 < close_previous (snd e)) sample_market)
    by (repeat constructor).
  destruct (before_trading_start busy_context rising_data sample_market)
    as [context'|e] eqn:E.
  - exists context'. split; [reflexivity|].
    destruct (before_trading_start_lists _ _ _ _ E) as [_ [Elong Eshort]].
    split; [rewrite Elong; reflexivity|].
    split; [rewrite Eshort; reflexivity|].
    exact (proj1 (longs_rose_and_shorts_fell _ _ _ _ Hpos E 7%nat)).
  - vm_compute in E. discriminate E.
Defined.

Lemma filter_split_perm {A : Type} (f g h : A -> bool) (l : list A) :
  (forall x, f x = true -> g x = negb (h x)) ->
  Permutation
    (List.filter (fun x => f x && g x) l ++ List.filter (fun x => f x && h x) l)
    (List.filter f l).
Proof.
  intros Hgh. induction l as [|x l IH]; simpl; [constructor|].
  destruct (f x) eqn:Ef; simpl; [|assumption].
  rewrite (Hgh x Ef). destruct (h x); simpl.
  - apply Permutation_sym, Permutation_cons_app. now apply Permutation_sym.
  - now apply perm_skip.
Qed.

Lemma screened_long_xor_short (s : Snapshot) :
  eval_filter s (screen make_pipeline) = true ->
  eval_filter s long_position = negb (eval_filter s short_position).
Proof.
  intros H.
  assert (Hmove : eval_filter s long_position || eval_filter s short_position
                  = true).
  { change (eval_filter s (screen make_pipeline))
      with (in_Q1500US s
            && (eval_filter s above_micro && eval_filter s price_range
                && eval_filter s highly_liquid
                && (eval_filter s long_position
                    || eval_filter s short_position))) in H.
    apply andb_true_iff in H. destruct H as [_ H].
    apply andb_true_iff in H. now destruct H as [_ H]. }
  pose proof (long_short_exclusive s) as Hex.
  destruct (eval_filter s long_position), (eval_filter s short_position);
    simpl in *; try reflexivity; try discriminate.
  discriminate (Hex eq_refl).
Qed.

Lemma longs_shorts_perm (context : Context) (data : BarData)
    (market : Market) (context' : Context) :
  before_trading_start context data market = Ok context' ->
  Permutation (longs context' ++ shorts context') (security_list context').
Proof.
  intros Hstart.
  destruct (before_trading_start_lists _ _ _ _ Hstart) as [El [Elong Eshort]].
  rewrite El, Elong, Eshort, <- List.map_app.
  apply Permutation_map, filter_split_perm.
  intros [sec s]. simpl. apply screened_long_xor_short.
Qed.

(** Every listed security is a long candidate or a short candidate and not
    both: the two lists together are a rearrangement of [security_list]. *)
Theorem longs_and_shorts_split_the_list (context : Context) (data : BarData)
    (market : Market) (context' : Context) :
  before_trading_start context data market = Ok context' ->
  Permutation (longs context' ++ shorts context') (security_list context')
  /\ (length (longs context') + length (shorts context')
      = length (security_list context'))%nat.
Proof.
  intros Hstart. pose proof (longs_shorts_perm _ _ _ _ Hstart) as Hp.
  split; [exact Hp|].
  apply Permutation_length in Hp. now rewrite List.length_app in Hp.
Qed.

Lemma longs_and_shorts_split_the_list_witness :
  exists context',
    before_trading_start busy_context rising_data sample_market = Ok context'
    /\ Permutation (longs context' ++ shorts context') (security_list context').
Proof.
  destruct (before_trading_start busy_context rising_data sample_market)
    as [context'|e] eqn:E.
  - exists context'. split; [reflexivity|].
    exact (proj1 (longs_and_shorts_split_the_list _ _ _ _ E)).
  - vm_compute in E. discriminate E.
Defined.

Lemma NoDup_map_filter {A B : Type} (f : A -> B) (p : A -> bool) (l : list A) :
  List.NoDup (List.map f l) -> List.NoDup (List.map f (List.filter p l)).
Proof.
  induction l as [|x l IH]; simpl; intros H; [constructor|].
  inversion H as [|? ? Hx Hl]; subst.
  destruct (p x); simpl; [|now apply IH].
  constructor; [|now apply IH].
  intros Hin. apply Hx. apply in_map_iff in Hin.
  destruct Hin as [y [Ey Hy]]. apply filter_In in Hy.
  apply in_map_iff. exists y. tauto.
Qed.

Lemma NoDup_app_inv {A : Type} (l1 l2 : list A) :
  List.NoDup (l1 ++ l2) ->
  List.NoDup l1 /\ List.NoDup l2 /\ (forall x, In x l1 -> ~ In x l2).
Proof.
  intros H. split; [now apply List.NoDup_app_remove_r in H|].
  split; [now apply List.NoDup_app_remove_l in H|].
  induction l1 as [|y l1 IH]; simpl in *; [tauto|].
  inversion H as [|? ? Hy Hrest]; subst.
  intros x [<- | Hx] Hx2.
  - apply Hy. apply in_or_app. now right.
  - now apply (IH Hrest x).
Qed.

(** A whole day.  When the market lists no security twice and the portfolio
    holds none twice, the rebalance that follows [before_trading_start]
    submits at most one order per security: no security is opened on both
    sides, and none is both opened and closed. *)
Theorem day_has_one_order_per_security (context : Context) (data : BarData)
    (market : Market) (context' : Context) :
  List.NoDup (List.map fst market) ->
  List.NoDup (positions context) ->
  before_trading_start context data market = Ok context' ->
  (forall s, In s (longs context') -> ~ In s (shorts context'))
  /\ List.NoDup (List.map fst (rebalance_orders context' data)).
Proof.
  intros Hmarket Hheld Hstart.
  destruct (before_trading_start_lists _ _ _ _ Hstart) as [El _].
  pose proof (longs_shorts_perm _ _ _ _ Hstart) as Hp.
  assert (Hlist : List.NoDup (security_list context'))
    by (rewrite El; now apply NoDup_map_filter).
  assert (Hboth : List.NoDup (longs context' ++ shorts context'))
    by (apply (Permutation_NoDup (Permutation_sym Hp)); assumption).
  apply NoDup_app_inv in Hboth. destruct Hboth as [Hl [Hs Hdis]].
  assert (Epos : positions context' = positions context).
  { unfold before_trading_start in Hstart.
    apply bind_Ok_inv in Hstart. destruct Hstart as [a [_ H]].
    now inversion H. }
  split; [exact Hdis|].
  apply ordered_securities_NoDup; try assumption.
  now rewrite Epos.
Qed.

Lemma day_has_one_order_per_security_witness :
  List.NoDup (List.map fst sample_market)
  /\ exists context',
       before_trading_start busy_context rising_data sample_market = Ok context'
       /\ List.NoDup (List.map fst (rebalance_orders context' rising_data)).
Proof.
  assert (Hmarket : List.NoDup (List.map fst sample_market))
    by (repeat constructor; simpl; lia).
  assert (Hheld : List.NoDup (positions busy_context))
    by (repeat constructor; simpl; lia).
  split; [exact Hmarket|].
  destruct (before_trading_start busy_context rising_data sample_market)
    as [context'|e] eqn:E.
  - exists context'. split; [reflexivity|].
    exact (proj2 (day_has_one_order_per_security _ rising_data _ _
                    Hmarket Hheld E)).
  - vm_compute in E. discriminate E.
Defined.

(** ** The recorder *)

(** After [before_trading_start], the five recorded values are the raw
    signal, the two allocations and the two counts; the counts add up to the
    number of listed securities. *)
Theorem recorded_counts_cover_the_list (context : Context) (data : BarData)
    (market : Market) (context' : Context) :
  before_trading_start context data market = Ok context' ->
  List.map fst (my_record_vars context')
  = ["allocations"; "long_allocations"; "short_allocations";
     "number_of_longs"; "number_of_shorts"]%string
  /\ exists nl ns,
       recorded "number_of_longs" (my_record_vars context') = Some nl
       /\ recorded "number_of_shorts" (my_record_vars context') = Some ns
       /\ nl + ns == len (security_list context').
Proof.
  intros Hstart. split; [reflexivity|].
  exists (len (longs context')), (len (shorts context')).
  split; [reflexivity|]. split; [reflexivity|].
  pose proof (longs_shorts_perm _ _ _ _ Hstart) as Hp.
  apply Permutation_length in Hp. rewrite List.length_app in Hp.
  unfold len. rewrite <- Hp, Nat2Z.inj_add, inject_Z_plus. reflexivity.
Qed.

Lemma recorded_counts_cover_the_list_witness :
  exists context' nl ns,
    before_trading_start busy_context rising_data sample_market = Ok context'
    /\ recorded "number_of_longs" (my_record_vars context') = Some nl
    /\ recorded "number_of_shorts" (my_record_vars context') = Some ns
    /\ nl + ns == len (security_list context').
Proof.
  destruct (before_trading_start busy_context rising_data sample_market)
    as [context'|e] eqn:E.
  - destruct (proj2 (recorded_counts_cover_the_list _ _ _ _ E))
      as [nl [ns [Hl [Hs Hsum]]]].
    exists context', nl, ns. split; [reflexivity|]. repeat split; assumption.
  - vm_compute in E. discriminate E.
Defined.

(** ** When the allocator completes, and what it can return *)

(** The allocator in two cases, by the scale its second stage computes. *)
Lemma allocate_by_scale (data : BarData) :
  prices data <> [] ->
  exists s,
    abs_diff_of (distances data) = Ok s
    /\ (s == 0 -> allocate data = Raise DivisionByZero)
    /\ (~ s == 0 ->
        let allocs := List.map (fun d => d / s) (distances data) in
        allocate data
        = Ok {| a_sum_distance := distances data;
                a_abs_diff := s;
                a_allocations := avg_of allocs;
                a_long_allocations := (1 # 2) + avg_of allocs;
                a_short_allocations := 1 - ((1 # 2) + avg_of allocs) |}).
Proof.
  intros Hne.
  destruct (allocate_distances data Hne) as [mg [Hmg [_ Hds]]].
  destruct (distances_nonempty data) as [d [ds Ed]].
  destruct (abs_diff_of_min_max d ds) as [s [Hs _]].
  exists s. rewrite Ed. split; [exact Hs|]. rewrite Ed in Hds. split.
  - intros Hzero. unfold allocate.
    rewrite Hmg. cbn [bind]. rewrite Hds. cbn [bind]. rewrite Hs. cbn [bind].
    now rewrite normalize_Raise.
  - intros Hnz allocs. unfold allocate.
    rewrite Hmg. cbn [bind]. rewrite Hds. cbn [bind]. rewrite Hs. cbn [bind].
    rewrite normalize_Ok by assumption. cbn [bind].
    fold allocs. rewrite average_Ok by discriminate. reflexivity.
Qed.

Lemma minimum_le_maximum_bounds (d : Q) (ds : list Q) (x : Q) :
  In x (d :: ds) -> minimum d ds <= x /\ x <= maximum d ds.
Proof.
  intros Hx.
  destruct (minimum_is_minimum d ds) as [_ Hlow].
  destruct (maximum_is_maximum d ds) as [_ Hup].
  split; [now apply Hlow | now apply Hup].
Qed.

(** The scale is zero exactly when every distance is zero. *)
Lemma scale_zero_iff (d : Q) (ds : list Q) :
  Qabs (minimum d ds) + Qabs (maximum d ds) == 0
  <-> Forall (fun x => x == 0) (d :: ds).
Proof.
  pose proof (Qabs_nonneg (minimum d ds)) as Hmin.
  pose proof (Qabs_nonneg (maximum d ds)) as Hmax.
  split.
  - intros Hs.
    assert (Zmin : Qabs (minimum d ds) == 0) by lra.
    assert (Zmax : Qabs (maximum d ds) == 0) by lra.
    assert (Emin : minimum d ds == 0)
      by (revert Zmin; apply Qabs_case; intros; lra).
    assert (Emax : maximum d ds == 0)
      by (revert Zmax; apply Qabs_case; intros; lra).
    apply List.Forall_forall. intros x Hx.
    destruct (minimum_le_maximum_bounds d ds x Hx). lra.
  - intros Hall. rewrite List.Forall_forall in Hall.
    destruct (minimum_is_minimum d ds) as [[lo [Hlo Elo]] _].
    destruct (maximum_is_maximum d ds) as [[hi [Hhi Ehi]] _].
    rewrite <- Elo, <- Ehi, (Hall lo Hlo), (Hall hi Hhi). reflexivity.
Qed.

(** With at least one price, the two first loops always succeed; the
    allocator then completes exactly when some difference is not zero, and
    ends in the division by zero exactly when all of them are zero.  Equal
    differences that are not zero do not stop it. *)
Theorem allocate_completes_iff_a_distance_is_nonzero (data : BarData) :
  prices data <> [] ->
  exists mg ds,
    mean_groups data = Ok mg
    /\ sum_distances mg = Ok ds
    /\ ((exists a, allocate data = Ok a) <-> Exists (fun d => ~ d == 0) ds)
    /\ (allocate data = Raise DivisionByZero <-> Forall (fun d => d == 0) ds).
Proof.
  intros Hne.
  destruct (allocate_distances data Hne) as [mg [Hmg [_ Hds]]].
  exists mg, (distances data). split; [exact Hmg|]. split; [exact Hds|].
  destruct (allocate_by_scale data Hne) as [s [Hs [Hzero Hnonzero]]].
  destruct (distances_nonempty data) as [d [ds Ed]].
  destruct (abs_diff_of_min_max d ds) as [s' [Hs' Es]].
  rewrite Ed in Hs. assert (s' = s) by congruence. subst s'.
  rewrite Ed.
  assert (Hiff : s == 0 <-> Forall (fun x => x == 0) (d :: ds))
    by (rewrite Es; apply scale_zero_iff).
  destruct (Qeq_dec s 0) as [Z | NZ].
  - specialize (Hzero Z). rewrite Hzero. split.
    + split; [intros [a Ha]; discriminate Ha|].
      intros Hex. exfalso. apply List.Exists_exists in Hex.
      destruct Hex as [x [Hx Hnz]]. apply Hnz.
      apply Hiff in Z. rewrite List.Forall_forall in Z. now apply Z.
    + split; [intros _; now apply Hiff | reflexivity].
  - specialize (Hnonzero NZ). cbv zeta in Hnonzero. rewrite Hnonzero. split.
    + split; [intros _ | intros _; eexists; reflexivity].
      apply List.neg_Forall_Exists_neg; [intros x; apply Qeq_dec|].
      intros Hall. apply NZ. now apply Hiff.
    + split; [discriminate|]. intros Hall. exfalso. apply NZ.
      now apply Hiff.
Qed.

Lemma allocate_completes_iff_a_distance_is_nonzero_witness :
  prices rising_data <> []
  /\ exists mg ds,
       mean_groups rising_data = Ok mg
       /\ sum_distances mg = Ok ds
       /\ ((exists a, allocate rising_data = Ok a)
           <-> Exists (fun d => ~ d == 0) ds)
       /\ (allocate rising_data = Raise DivisionByZero
           <-> Forall (fun d => d == 0) ds).
Proof.
  assert (Hne : prices rising_data <> []) by discriminate.
  split; [exact Hne|].
  exact (allocate_completes_iff_a_distance_is_nonzero rising_data Hne).
Defined.

Lemma sum_between (lo hi : Q) (l : list Q) :
  Forall (fun x => lo <= x <= hi) l ->
  len l * lo <= sum l <= len l * hi.
Proof.
  induction 1 as [|x l Hx _ IH].
  - change (sum []) with 0. change (len (@nil Q)) with 0. lra.
  - rewrite sum_cons, len_cons. lra.
Qed.

Lemma avg_of_between (lo hi : Q) (l : list Q) :
  l <> [] -> Forall (fun x => lo <= x <= hi) l -> lo <= avg_of l <= hi.
Proof.
  intros Hne Hall. pose proof (len_pos l Hne) as Hlen.
  pose proof (sum_between lo hi l Hall) as [Hlo Hhi].
  unfold avg_of. split.
  - apply Qle_shift_div_l; [assumption | lra].
  - apply Qle_shift_div_r; [assumption | lra].
Qed.

Lemma Qabs_bounds (x : Q) : - Qabs x <= x <= Qabs x.
Proof. apply Qabs_case; intros; lra. Qed.

(** Whenever the allocator completes, the scale is positive, every
    normalised difference lies in [-1, 1], and so does their average; hence
    [long_allocations] and [short_allocations] lie in [-1/2, 3/2]. *)
Theorem allocations_are_bounded (data : BarData) (a : Allocation) :
  allocate data = Ok a ->
  0 < a_abs_diff a
  /\ (forall d, In d (a_sum_distance a) -> -1 <= d / a_abs_diff a <= 1)
  /\ -1 <= a_allocations a <= 1
  /\ - (1 # 2) <= a_long_allocations a <= 3 # 2
  /\ - (1 # 2) <= a_short_allocations a <= 3 # 2.
Proof.
  intros Ha.
  destruct (allocate_inv data a Ha) as [mg [_ [Hmg _]]].
  pose proof (mean_groups_prices data mg Hmg) as Hne.
  destruct (allocate_by_scale data Hne) as [s [Hs [Hzero Hnonzero]]].
  destruct (Qeq_dec s 0) as [Z | NZ]; [rewrite (Hzero Z) in Ha; discriminate|].
  specialize (Hnonzero NZ). cbv zeta in Hnonzero.
  destruct (distances_nonempty data) as [d [ds Ed]]. rewrite Ed in *.
  set (avg := avg_of (List.map (fun x => x / s) (d :: ds))) in *.
  rewrite Hnonzero in Ha. injection Ha as <-.
  cbn [a_sum_distance a_abs_diff a_allocations a_long_allocations
       a_short_allocations].
  destruct (abs_diff_of_min_max d ds) as [s' [Hs' Es]].
  assert (s' = s) by congruence. subst s'.
  pose proof (Qabs_nonneg (minimum d ds)) as Hmin.
  pose proof (Qabs_nonneg (maximum d ds)) as Hmax.
  assert (Hspos : 0 < s) by lra.
  assert (Hratio : forall x, In x (d :: ds) -> -1 <= x / s <= 1).
  { intros x Hx.
    destruct (minimum_le_maximum_bounds d ds x Hx) as [Hlo Hhi].
    pose proof (Qabs_bounds (minimum d ds)).
    pose proof (Qabs_bounds (maximum d ds)).
    split.
    - apply Qle_shift_div_l; [assumption | lra].
    - apply Qle_shift_div_r; [assumption | lra]. }
  assert (Havg : -1 <= avg <= 1).
  { apply avg_of_between; [discriminate|].
    apply List.Forall_forall. intros q Hq.
    apply in_map_iff in Hq. destruct Hq as [x [<- Hx]]. now apply Hratio. }
  split; [assumption|]. split; [exact Hratio|].
  split; [exact Havg|]. destruct Havg. repeat split; lra.
Qed.

Lemma allocations_are_bounded_witness :
  exists a,
    allocate rising_data = Ok a
    /\ -1 <= a_allocations a <= 1
    /\ - (1 # 2) <= a_long_allocations a <= 3 # 2.
Proof.
  destruct (allocate rising_data) as [a|e] eqn:E.
  - destruct (allocations_are_bounded rising_data a E)
      as [_ [_ [Havg [Hlong _]]]].
    exists a. split; [reflexivity|]. split; assumption.
  - vm_compute in E. discriminate E.
Defined.

Lemma for_each_ext {A S : Type} (xs : list A)
    (body1 body2 : S -> A -> result S) (acc : S) :
  (forall acc' x, In x xs -> body1 acc' x = body2 acc' x) ->
  for_each xs body1 acc = for_each xs body2 acc.
Proof.
  revert acc. induction xs as [|x xs IH]; intros acc Hext; [reflexivity|].
  simpl. rewrite (Hext acc x (or_introl eq_refl)).
  destruct (body2 acc x) as [acc'|e]; [|reflexivity]. simpl.
  apply IH. intros acc'' y Hy. apply Hext. now right.
Qed.

(** The allocation depends on the benchmark through its trailing 24 prices
    only: two series that end in the same 24 prices give the same result,
    the error included. *)
Theorem allocate_reads_the_trailing_24 (data1 data2 : BarData) :
  (24 <= length (prices data1))%nat ->
  (24 <= length (prices data2))%nat ->
  history data1 24 = history data2 24 ->
  allocate data1 = allocate data2.
Proof.
  intros H1 H2 E24.
  assert (Emg : mean_groups data1 = mean_groups data2).
  { unfold mean_groups. apply for_each_ext. intros mg i Hi.
    assert (Hi24 : (i <= 24)%nat).
    { rewrite range_2_25_2 in Hi. simpl in Hi.
      repeat (destruct Hi as [<- | Hi]; [lia|]). contradiction. }
    cbv zeta.
    rewrite (history_suffix data1 i 24), (history_suffix data2 i 24) by lia.
    now rewrite E24. }
  unfold allocate. now rewrite Emg.
Qed.

Lemma allocate_reads_the_trailing_24_witness :
  allocate {| prices := 50 :: 7 :: rising; can_trade := always_tradable |}
  = allocate rising_data.
Proof.
  apply allocate_reads_the_trailing_24; [simpl; lia | simpl; lia | reflexivity].
Defined.

(** ** Changing the unit of the benchmark *)

Section Rescaling.

Variables (k c : Q).

Let related (p' p : Q) : Prop := p' == k * p + c.

Lemma Forall2_same_length {A B : Type} (R : A -> B -> Prop) (l' : list A)
    (l : list B) :
  Forall2 R l' l -> length l' = length l.
Proof. induction 1; simpl; congruence. Qed.

Lemma Forall2_skipn_both {A B : Type} (R : A -> B -> Prop) (n : nat)
    (l' : list A) (l : list B) :
  Forall2 R l' l -> Forall2 R (skipn n l') (skipn n l).
Proof.
  intros H. revert n. induction H as [|x' x l' l Hx Hl IH]; intros n.
  - rewrite !skipn_nil. constructor.
  - destruct n as [|n]; simpl; [now constructor | apply IH].
Qed.

Lemma history_rescaled (data' data : BarData) (i : nat) :
  rescaled k c data' data ->
  Forall2 related (history data' i) (history data i).
Proof.
  intros H. unfold history.
  rewrite (Forall2_same_length _ _ _ H).
  now apply Forall2_skipn_both.
Qed.

Lemma sum_rescaled (l' l : list Q) :
  Forall2 related l' l -> sum l' == k * sum l + len l * c.
Proof.
  induction 1 as [|x' x l' l Hx _ IH].
  - change (sum []) with 0. change (len (@nil Q)) with 0. ring.
  - rewrite !sum_cons, len_cons, IH. unfold related in Hx. rewrite Hx. ring.
Qed.

Lemma avg_of_rescaled (l' l : list Q) :
  l <> [] -> Forall2 related l' l -> avg_of l' == k * avg_of l + c.
Proof.
  intros Hne H. unfold avg_of.
  assert (El : len l' = len l)
    by (unfold len; now rewrite (Forall2_same_length _ _ _ H)).
  rewrite El, (sum_rescaled l' l H).
  pose proof (len_pos l Hne). field. lra.
Qed.

Lemma distances_rescaled (data' data : BarData) :
  rescaled k c data' data ->
  prices data <> [] ->
  Forall2 (fun d' d => d' == k * d) (distances data') (distances data).
Proof.
  intros H Hne. unfold distances.
  assert (Hall : forall i, In i differenced -> (0 < i)%nat)
    by (intros i Hi; now apply differenced_bounds).
  induction differenced as [|i ks IH]; simpl; [constructor|].
  constructor.
  - assert (Hi : (0 < i)%nat) by (apply Hall; now left).
    assert (E : forall j, (0 < j)%nat ->
                avg_of (history data' j) == k * avg_of (history data j) + c).
    { intros j Hj. apply avg_of_rescaled.
      - now apply history_nonempty.
      - now apply history_rescaled. }
    rewrite (E i Hi), (E (i + 2)%nat) by lia. ring.
  - apply IH. intros j Hj. apply Hall. now right.
Qed.

End Rescaling.

Lemma Forall2_In_right {A B : Type} (R : A -> B -> Prop) (l' : list A)
    (l : list B) (x : B) :
  Forall2 R l' l -> In x l -> exists x', In x' l' /\ R x' x.
Proof.
  induction 1 as [|y' y l' l Hy _ IH]; intros Hx; [contradiction|].
  destruct Hx as [<- | Hx].
  - exists y'. split; [now left | assumption].
  - destruct (IH Hx) as [x' [Hin HR]]. exists x'. split; [now right | assumption].
Qed.

Lemma Forall2_In_left {A B : Type} (R : A -> B -> Prop) (l' : list A)
    (l : list B) (x' : A) :
  Forall2 R l' l -> In x' l' -> exists x, In x l /\ R x' x.
Proof.
  induction 1 as [|y' y l' l Hy _ IH]; intros Hx; [contradiction|].
  destruct Hx as [<- | Hx].
  - exists y. split; [now left | assumption].
  - destruct (IH Hx) as [x [Hin HR]]. exists x. split; [now right | assumption].
Qed.

Section Scaling.

Variables (k : Q) (l' l : list Q).
Hypothesis Hscaled : Forall2 (fun d' d => d' == k * d) l' l.

Lemma is_minimum_scaled_up (m : Q) :
  0 < k -> is_minimum m l -> is_minimum (k * m) l'.
Proof.
  intros Hk [[y [Hy Ey]] Hlow]. split.
  - destruct (Forall2_In_right _ _ _ y Hscaled Hy) as [y' [Hy' E]].
    exists y'. split; [assumption|]. now rewrite E, Ey.
  - intros y' Hy'.
    destruct (Forall2_In_left _ _ _ y' Hscaled Hy') as [x [Hx E]].
    rewrite E. apply Qmult_le_l; [assumption | now apply Hlow].
Qed.

Lemma is_maximum_scaled_up (m : Q) :
  0 < k -> is_maximum m l -> is_maximum (k * m) l'.
Proof.
  intros Hk [[y [Hy Ey]] Hup]. split.
  - destruct (Forall2_In_right _ _ _ y Hscaled Hy) as [y' [Hy' E]].
    exists y'. split; [assumption|]. now rewrite E, Ey.
  - intros y' Hy'.
    destruct (Forall2_In_left _ _ _ y' Hscaled Hy') as [x [Hx E]].
    rewrite E. apply Qmult_le_l; [assumption | now apply Hup].
Qed.

Lemma is_minimum_scaled_down (m : Q) :
  k < 0 -> is_maximum m l -> is_minimum (k * m) l'.
Proof.
  intros Hk [[y [Hy Ey]] Hup]. split.
  - destruct (Forall2_In_right _ _ _ y Hscaled Hy) as [y' [Hy' E]].
    exists y'. split; [assumption|]. now rewrite E, Ey.
  - intros y' Hy'.
    destruct (Forall2_In_left _ _ _ y' Hscaled Hy') as [x [Hx E]].
    rewrite E.
    assert (H : (- k) * x <= (- k) * m)
      by (apply Qmult_le_l; [lra | now apply Hup]).
    lra.
Qed.

Lemma is_maximum_scaled_down (m : Q) :
  k < 0 -> is_minimum m l -> is_maximum (k * m) l'.
Proof.
  intros Hk [[y [Hy Ey]] Hlow]. split.
  - destruct (Forall2_In_right _ _ _ y Hscaled Hy) as [y' [Hy' E]].
    exists y'. split; [assumption|]. now rewrite E, Ey.
  - intros y' Hy'.
    destruct (Forall2_In_left _ _ _ y' Hscaled Hy') as [x [Hx E]].
    rewrite E.
    assert (H : (- k) * m <= (- k) * x)
      by (apply Qmult_le_l; [lra | now apply Hlow]).
    lra.
Qed.

End Scaling.

(** Scaling the distances by [k] scales [abs_diff] by [|k|]. *)
Lemma scale_rescaled (k d' d : Q) (ds' ds : list Q) :
  ~ k == 0 ->
  Forall2 (fun x' x => x' == k * x) (d' :: ds') (d :: ds) ->
  Qabs (minimum d' ds') + Qabs (maximum d' ds')
  == Qabs k * (Qabs (minimum d ds) + Qabs (maximum d ds)).
Proof.
  intros Hk H.
  pose proof (minimum_is_minimum d ds) as Hmin.
  pose proof (maximum_is_maximum d ds) as Hmax.
  pose proof (minimum_is_minimum d' ds') as Hmin'.
  pose proof (maximum_is_maximum d' ds') as Hmax'.
  destruct (Qlt_le_dec 0 k) as [Hpos | Hneg].
  - rewrite (is_minimum_unique _ _ _ Hmin'
               (is_minimum_scaled_up k _ _ H _ Hpos Hmin)).
    rewrite (is_maximum_unique _ _ _ Hmax'
               (is_maximum_scaled_up k _ _ H _ Hpos Hmax)).
    rewrite !Qabs_Qmult. ring.
  - assert (Hlt : k < 0) by (apply Qle_lteq in Hneg; destruct Hneg; [assumption|contradiction]).
    rewrite (is_minimum_unique _ _ _ Hmin'
               (is_minimum_scaled_down k _ _ H _ Hlt Hmax)).
    rewrite (is_maximum_unique _ _ _ Hmax'
               (is_maximum_scaled_down k _ _ H _ Hlt Hmin)).
    rewrite !Qabs_Qmult. ring.
Qed.

Lemma rescaled_prices_nonempty (k c : Q) (data' data : BarData) :
  rescaled k c data' data -> prices data <> [] -> prices data' <> [].
Proof.
  intros H Hne Hnil. apply Forall2_same_length in H.
  rewrite Hnil in H. destruct (prices data); [congruence | discriminate].
Qed.

(** The allocator after a change of unit [p |-> k * p + c] with [k] not
    zero: it completes again, the distances are multiplied by [k], and the
    average of the normalised distances keeps its value when [k] is positive
    and changes sign when [k] is negative. *)
Lemma allocate_rescaled (k c : Q) (data' data : BarData) (a : Allocation) :
  ~ k == 0 ->
  rescaled k c data' data ->
  allocate data = Ok a ->
  exists a',
    allocate data' = Ok a'
    /\ Forall2 (fun d' d => d' == k * d) (a_sum_distance a') (a_sum_distance a)
    /\ (0 < k -> a_allocations a' == a_allocations a)
    /\ (k < 0 -> a_allocations a' == - a_allocations a)
    /\ a_long_allocations a' = (1 # 2) + a_allocations a'
    /\ a_short_allocations a' = 1 - a_long_allocations a'
    /\ a_long_allocations a = (1 # 2) + a_allocations a
    /\ a_short_allocations a = 1 - a_long_allocations a.
Proof.
  intros Hk Hres Ha.
  destruct (allocate_inv data a Ha) as [mg [_ [Hmg _]]].
  pose proof (mean_groups_prices data mg Hmg) as Hne.
  pose proof (rescaled_prices_nonempty k c data' data Hres Hne) as Hne'.
  pose proof (distances_rescaled k c data' data Hres Hne) as Hds.
  destruct (allocate_by_scale data Hne) as [s [Hs [Hzero Hnonzero]]].
  destruct (allocate_by_scale data' Hne') as [s' [Hs' [_ Hnonzero']]].
  destruct (Qeq_dec s 0) as [Z | NZ]; [rewrite (Hzero Z) in Ha; discriminate|].
  specialize (Hnonzero NZ). cbv zeta in Hnonzero.
  destruct (distances_nonempty data) as [d [ds Ed]].
  destruct (distances_nonempty data') as [d' [ds' Ed']].
  rewrite Ed in *. rewrite Ed' in *.
  destruct (abs_diff_of_min_max d ds) as [t [Ht Es]].
  destruct (abs_diff_of_min_max d' ds') as [t' [Ht' Es']].
  assert (t = s) by congruence. assert (t' = s') by congruence. subst t t'.
  assert (Escale : s' == Qabs k * s)
    by (rewrite Es', Es; now apply scale_rescaled).
  assert (Hkabs : 0 < Qabs k).
  { pose proof (Qabs_nonneg k) as H0.
    apply Qle_lteq in H0. destruct H0 as [H0 | H0]; [assumption|].
    exfalso. apply Hk. revert H0. apply Qabs_case; intros; lra. }
  assert (NZ' : ~ s' == 0).
  { rewrite Escale. intros Hz. apply Qmult_integral in Hz. lra. }
  specialize (Hnonzero' NZ'). cbv zeta in Hnonzero'.
  set (allocs := List.map (fun x => x / s) (d :: ds)) in *.
  set (allocs' := List.map (fun x => x / s') (d' :: ds')) in *.
  assert (Hallocs : forall j, Qabs k == j * k ->
            Forall2 (fun x' x => x' == / j * x + 0) allocs' allocs).
  { intros j Hj. unfold allocs, allocs'.
    assert (Hjnz : ~ j == 0) by (intros Hz; rewrite Hz in Hj; lra).
    clear - Hds Escale Hj Hk NZ Hjnz.
    induction Hds as [|x' x l' l Hx _ IH]; simpl; constructor; [|exact IH].
    rewrite Hx, Escale, Hj. field. repeat split; assumption. }
  rewrite Hnonzero in Ha. injection Ha as <-.
  eexists. split; [exact Hnonzero'|].
  cbn [a_sum_distance a_abs_diff a_allocations a_long_allocations
       a_short_allocations].
  split; [exact Hds|].
  assert (Hallocs_ne : allocs <> []) by discriminate.
  split; [|split].
  - intros Hpos.
    assert (Hj : Qabs k == 1 * k) by (rewrite Qabs_pos; lra).
    rewrite (avg_of_rescaled (/ 1) 0 allocs' allocs Hallocs_ne (Hallocs 1 Hj)).
    field.
  - intros Hneg.
    assert (Hj : Qabs k == (- (1)) * k) by (rewrite Qabs_neg; lra).
    rewrite (avg_of_rescaled (/ - (1)) 0 allocs' allocs Hallocs_ne
               (Hallocs (- (1)) Hj)).
    field.
  - repeat split; reflexivity.
Qed.




Lemma mirrored_rescaled (data : BarData) :
  rescaled (- (1)) 0 (mirrored data) data
  /\ rescaled (- (1)) 0 data (mirrored data).
Proof.
  unfold rescaled, mirrored. simpl.
  induction (prices data) as [|p l [IH1 IH2]]; simpl;
    split; constructor; try assumption; ring.
Qed.


Lemma Sorted_map {A B : Type} (R : A -> A -> Prop) (R' : B -> B -> Prop)
    (f : A -> B) (l : list A) :
  (forall x y, R x y -> R' (f x) (f y)) ->
  Sorted R l -> Sorted R' (List.map f l).
Proof.
  intros Hf. induction 1 as [|x l Hl IH Hx]; simpl; constructor.
  - assumption.
  - destruct Hx; simpl; constructor. now apply Hf.
Qed.

Lemma history_mirrored (data : BarData) (i : nat) :
  history (mirrored data) i = List.map Qopp (history data i).
Proof.
  unfold history, mirrored. simpl.
  now rewrite List.length_map, List.skipn_map.
Qed.

(** The allocator on a strictly rising trailing 24 days. *)
Lemma rising_allocation (data : BarData) :
  (24 <= length (prices data))%nat ->
  Sorted Qlt (history data 24) ->
  exists a,
    allocate data = Ok a
    /\ Forall (fun d => 0 < d) (a_sum_distance a)
    /\ 0 < a_allocations a.
Proof.
  intros Hlen Hsorted.
  pose proof (distances_positive data Hlen Hsorted) as Hpos.
  assert (Hne : prices data <> []).
  { intros Hnil. rewrite Hnil in Hlen. simpl in Hlen. lia. }
  destruct (allocate_by_scale data Hne) as [s [Hs [_ Hnonzero]]].
  destruct (distances_nonempty data) as [d [ds Ed]].
  rewrite Ed in *.
  destruct (positive_distances_allocation d ds Hpos)
    as [s' [avg [Hs' [Hspos [_ [Havg Havgpos]]]]]].
  assert (s' = s) by congruence. subst s'.
  assert (NZ : ~ s == 0) by lra.
  specialize (Hnonzero NZ). cbv zeta in Hnonzero.
  rewrite average_Ok in Havg by discriminate. injection Havg as <-.
  eexists. split; [exact Hnonzero|].
  cbn [a_sum_distance a_allocations]. split; assumption.
Qed.

(** On a benchmark that fell strictly over the trailing 24 days the
    allocator completes, every difference in [sum_distance] is negative, and
    [long_allocations] is below one half. *)
Theorem falling_benchmark_tilts_short (data : BarData) :
  (24 <= length (prices data))%nat ->
  Sorted (fun p q => q < p) (history data 24) ->
  exists a,
    allocate data = Ok a
    /\ Forall (fun d => d < 0) (a_sum_distance a)
    /\ a_long_allocations a < 1 # 2
    /\ 1 # 2 < a_short_allocations a.
Proof.
  intros Hlen Hfall.
  assert (Hlen' : (24 <= length (prices (mirrored data)))%nat)
    by (unfold mirrored; simpl; now rewrite List.length_map).
  assert (Hrise : Sorted Qlt (history (mirrored data) 24)).
  { rewrite history_mirrored. revert Hfall. apply Sorted_map.
    intros x y Hxy. lra. }
  destruct (rising_allocation (mirrored data) Hlen' Hrise)
    as [a' [Ha' [Hpos Havg]]].
  destruct (allocate_rescaled (- (1)) 0 data (mirrored data) a')
    as [a [Ha [Hds [_ [Hflip [El [Es _]]]]]]];
    [lra | apply mirrored_rescaled | assumption |].
  assert (Hneg : - (1) < 0) by lra.
  specialize (Hflip Hneg).
  exists a. split; [assumption|]. split.
  - apply List.Forall_forall. intros d Hd.
    destruct (Forall2_In_left _ _ _ d Hds Hd) as [d' [Hd' E]].
    rewrite List.Forall_forall in Hpos. specialize (Hpos d' Hd'). lra.
  - rewrite Es, El. split; lra.
Qed.

Lemma falling_benchmark_tilts_short_witness :
  (24 <= length (prices falling_data))%nat
  /\ Sorted (fun p q => q < p) (history falling_data 24)
  /\ exists a,
       allocate falling_data = Ok a
       /\ a_long_allocations a < 1 # 2.
Proof.
  assert (Hlen : (24 <= length (prices falling_data))%nat) by (simpl; lia).
  assert (Hfall : Sorted (fun p q => q < p) (history falling_data 24))
    by (vm_compute; repeat constructor).
  split; [exact Hlen|]. split; [exact Hfall|].
  destruct (falling_benchmark_tilts_short falling_data Hlen Hfall)
    as [a [Ha [_ [Hlong _]]]].
  exists a. split; assumption.
Defined.

(** The allocations are not confined to [0, 1].  On the prices 12, 13, 3, 4,
    ..., 24 all differences are positive, ten of them 1 and the last 1/12;
    [long_allocations] is 35/26 and [short_allocations] is -9/26.  Upside
    down, the same series gives a negative [long_allocations]. *)
Theorem allocations_can_leave_the_unit_interval :
  (exists data a,
     allocate data = Ok a
     /\ 1 < a_long_allocations a /\ a_short_allocations a < 0)
  /\ (exists data a,
        allocate data = Ok a
        /\ a_long_allocations a < 0 /\ 1 < a_short_allocations a).
Proof.
  assert (H : exists a, allocate late_start_data = Ok a
                        /\ a_long_allocations a == 35 # 26
                        /\ a_short_allocations a == - (9 # 26)).
  { destruct (allocate late_start_data) as [a|e] eqn:E;
      [|vm_compute in E; discriminate E].
    exists a. split; [reflexivity|].
    vm_compute in E. injection E as <-. split; reflexivity. }
  destruct H as [a [Ha [Hlong Hshort]]].
  split.
  - exists late_start_data, a. split; [assumption|]. lra.
  - destruct (allocate_rescaled (- (1)) 0 (mirrored late_start_data)
                late_start_data a)
      as [a' [Ha' [_ [_ [Hflip [El' [Es' [El Es]]]]]]]];
      [lra | apply mirrored_rescaled | assumption |].
    exists (mirrored late_start_data), a'. split; [assumption|].
    assert (Hneg : - (1) < 0) by lra. specialize (Hflip Hneg).
    rewrite Es', El', Hflip. rewrite El in Hlong. lra.
Qed.


